(** * datashape.discovery: type-shape discovery and unification

    A shallow embedding of [datashape/discovery.py] and the properties of
    its three unification strategies ([unite_identical], [unite_base],
    [unite_merge_dimensions]), of the strategy combinator [do_one] and of
    the dispatching function [discover].

    Python exceptions are modelled by the error monad [result]; Python's
    [None] by [option]; a Python list of shapes stays a [list]. *)

From Stdlib Require Import List ZArith Bool Lia String Ascii.
From Stdlib Require Import Permutation Sorted.
Import ListNotations.

Set Warnings "-register-all".

Local Open Scope string_scope.
Local Open Scope list_scope.
Local Open Scope Z_scope.

(* ================================================================== *)
(** ** Exceptions and the error monad *)

Inductive exn : Type :=
| TypeError
| ValueError
| AttributeError
| IndexError
| KeyError.

Inductive result (A : Type) : Type :=
| Ok (a : A)
| Raise (e : exn).

Arguments Ok {A} a.
Arguments Raise {A} e.

Definition bind {A B : Type} (r : result A) (k : A -> result B) : result B :=
  match r with
  | Ok a => k a
  | Raise e => Raise e
  end.

Notation "x <- c ;; k" := (bind c (fun x => k))
  (at level 61, c at next level, right associativity).

(** A list comprehension whose body may raise: elements are evaluated
    left to right and the first exception escapes. *)
Fixpoint mapM {A B : Type} (f : A -> result B) (l : list A) : result (list B) :=
  match l with
  | [] => Ok []
  | x :: xs => y <- f x ;; ys <- mapM f xs ;; Ok (y :: ys)
  end.

Definition exn_eqb (a b : exn) : bool :=
  match a, b with
  | TypeError, TypeError | ValueError, ValueError
  | AttributeError, AttributeError | IndexError, IndexError
  | KeyError, KeyError => true
  | _, _ => false
  end.

(** [try: body except E: handler] *)
Definition try_except {A : Type} (body : result A) (e : exn)
    (handler : result A) : result A :=
  match body with
  | Ok a => Ok a
  | Raise e' => if exn_eqb e' e then handler else Raise e'
  end.

(* ================================================================== *)
(** ** Type shapes (the data model of [coretypes]) *)

(** The scalar kinds that [discovery.py] imports from [coretypes].
    [real] is an alias of [float64]; [null] is the instance of [Null]. *)
Inductive ctype : Type :=
| k_int32 | k_int64 | k_float64 | k_bool | k_complex128
| k_string | k_date | k_time | k_datetime | k_null.

(** Modelled from the spec: the classes of [coretypes.py] (the module is
    not part of the sources at hand).  A [Mono] is a scalar kind, an
    [Option], a tuple ([MTuple]), a record ([MRecord]), a dimension
    ([Fixed n] or [Var]), or a [DataShape] container holding a sequence of
    parameters (dimensions followed by a measure).  [DataShape [t]] is the
    single-element wrapper that [unpack] removes.  The Python constructors
    [Tuple(...)] and [Record(...)] are the functions [Tuple] and [Record]
    below. *)
Inductive Mono : Type :=
| CType (k : ctype)
| Option (m : Mono)
| MTuple (dshapes : list Mono)
| MRecord (fields : list (string * Mono))
| Fixed (n : Z)
| Var
| DataShape (parameters : list Mono).

Definition int32 := CType k_int32.
Definition int64 := CType k_int64.
Definition float64 := CType k_float64.
Definition real := float64.
Definition bool_ := CType k_bool.
Definition complex128 := CType k_complex128.
Definition string_ := CType k_string.
Definition date_ := CType k_date.
Definition time_ := CType k_time.
Definition datetime_ := CType k_datetime.
Definition null := CType k_null.
Definition var := Var.

Definition ctype_eqb (a b : ctype) : bool :=
  match a, b with
  | k_int32, k_int32 | k_int64, k_int64 | k_float64, k_float64
  | k_bool, k_bool | k_complex128, k_complex128 | k_string, k_string
  | k_date, k_date | k_time, k_time | k_datetime, k_datetime
  | k_null, k_null => true
  | _, _ => false
  end.

(** Modelled from the spec: [==] on shapes is structural equality. *)
Fixpoint Mono_eqb (a b : Mono) {struct a} : bool :=
  let fix go (l1 l2 : list Mono) {struct l1} : bool :=
    match l1, l2 with
    | [], [] => true
    | x :: xs, y :: ys => Mono_eqb x y && go xs ys
    | _, _ => false
    end in
  let fix gof (l1 l2 : list (string * Mono)) {struct l1} : bool :=
    match l1, l2 with
    | [], [] => true
    | (k1, x) :: xs, (k2, y) :: ys =>
        String.eqb k1 k2 && Mono_eqb x y && gof xs ys
    | _, _ => false
    end in
  match a, b with
  | CType k1, CType k2 => ctype_eqb k1 k2
  | Option x, Option y => Mono_eqb x y
  | MTuple l1, MTuple l2 => go l1 l2
  | MRecord f1, MRecord f2 => gof f1 f2
  | Fixed n, Fixed m => Z.eqb n m
  | Var, Var => true
  | DataShape l1, DataShape l2 => go l1 l2
  | _, _ => false
  end.

Fixpoint Monos_eqb (l1 l2 : list Mono) : bool :=
  match l1, l2 with
  | [], [] => true
  | x :: xs, y :: ys => Mono_eqb x y && Monos_eqb xs ys
  | _, _ => false
  end.

Fixpoint fields_eqb (l1 l2 : list (string * Mono)) : bool :=
  match l1, l2 with
  | [], [] => true
  | (k1, x) :: xs, (k2, y) :: ys =>
      String.eqb k1 k2 && Mono_eqb x y && fields_eqb xs ys
  | _, _ => false
  end.

(** Induction over shapes that reaches the children held in lists. *)
Section Mono_induction.
Variable P : Mono -> Prop.
Hypothesis HCType : forall k, P (CType k).
Hypothesis HOption : forall m, P m -> P (Option m).
Hypothesis HTuple : forall l, Forall P l -> P (MTuple l).
Hypothesis HRecord : forall fs, Forall (fun kv => P (snd kv)) fs -> P (MRecord fs).
Hypothesis HFixed : forall n, P (Fixed n).
Hypothesis HVar : P Var.
Hypothesis HDataShape : forall l, Forall P l -> P (DataShape l).

Fixpoint Mono_nested_ind (m : Mono) : P m :=
  match m with
  | CType k => HCType k
  | Option x => HOption x (Mono_nested_ind x)
  | MTuple l =>
      HTuple l
        ((fix go (l : list Mono) : Forall P l :=
            match l with
            | [] => Forall_nil P
            | x :: xs => Forall_cons x (Mono_nested_ind x) (go xs)
            end) l)
  | MRecord fs =>
      HRecord fs
        ((fix go (l : list (string * Mono)) : Forall (fun kv => P (snd kv)) l :=
            match l with
            | [] => Forall_nil _
            | (k, x) :: xs =>
                Forall_cons (P := fun kv => P (snd kv)) (k, x)
                  (Mono_nested_ind x) (go xs)
            end) fs)
  | Fixed n => HFixed n
  | Var => HVar
  | DataShape l =>
      HDataShape l
        ((fix go (l : list Mono) : Forall P l :=
            match l with
            | [] => Forall_nil P
            | x :: xs => Forall_cons x (Mono_nested_ind x) (go xs)
            end) l)
  end.
End Mono_induction.


(* ================================================================== *)
(** ** Operations of [coretypes] used by the discovery module *)

(** Modelled from the spec: [isdimension] holds of the repetition counts
    [Fixed n] and [Var]. *)
Definition isdimension (m : Mono) : bool :=
  match m with
  | Fixed _ | Var => true
  | _ => false
  end.

(** Modelled from the spec: [dim * shape].  A [DataShape] right operand
    receives the dimension in front of its parameters; any other shape is
    placed in a fresh two-parameter [DataShape]. *)
Definition mul (d : Mono) (m : Mono) : Mono :=
  match m with
  | DataShape ps => DataShape (d :: ps)
  | _ => DataShape [d; m]
  end.

(** Modelled from the spec: [n * shape] for a Python integer [n] turns the
    integer into [Fixed n]. *)
Definition mul_int (n : Z) (m : Mono) : Mono := mul (Fixed n) m.

Declare Scope dshape_scope.
Delimit Scope dshape_scope with ds.
Notation "n ** m" := (mul_int n m) (at level 35, right associativity) : dshape_scope.
Local Open Scope dshape_scope.

(** [len(x)] for a list, as a Python integer. *)
Definition len {A : Type} (l : list A) : Z := Z.of_nat (List.length l).

(** Modelled from the spec: [len(shape)] is the number of parameters of a
    [DataShape] and 1 for every other shape; a shape is true in a
    condition when its length is not 0. *)
Definition Mono_len (m : Mono) : Z :=
  match m with
  | DataShape ps => len ps
  | _ => 1
  end.

Definition Mono_bool (m : Mono) : bool := negb (Mono_len m =? 0).

(** Truth value of a result that is a shape or [None]. *)
Definition truthy (r : option Mono) : bool :=
  match r with
  | Some m => Mono_bool m
  | None => false
  end.

(** Modelled from the spec: the constructors of [coretypes] pack every
    member that is not a [DataShape] in a single-element [DataShape]
    (docstring of [unpack]: "Record packs inputs in DataShape
    containers"). *)
Definition pack (m : Mono) : Mono :=
  match m with
  | DataShape _ => m
  | _ => DataShape [m]
  end.

(** Modelled from the spec: the constructor [Tuple(dshapes)]. *)
Definition Tuple (dshapes : list Mono) : Mono := MTuple (map pack dshapes).

(** Modelled from the spec: the constructor [Record(fields)]. *)
Definition Record (fields : list (string * Mono)) : Mono :=
  MRecord (map (fun kv => (fst kv, pack (snd kv))) fields).

(** What a unification function hands back: a shape, or the input list
    itself when [do_one] falls through. *)
Inductive pyval : Type :=
| PShape (m : Mono)
| PList (l : list Mono).

(** Modelled from the spec: [ds.subshape[0]], the shape left when the
    leading dimension is removed.  Python lists and shapes that are not
    [DataShape]s have no [subshape] attribute. *)
Definition Mono_subshape0 (m : Mono) : result Mono :=
  match m with
  | DataShape (d :: p :: ps) =>
      if isdimension d then Ok (DataShape (p :: ps)) else Raise IndexError
  | DataShape _ => Raise IndexError
  | _ => Raise AttributeError
  end.

Definition subshape0 (v : pyval) : result Mono :=
  match v with
  | PShape m => Mono_subshape0 m
  | PList _ => Raise AttributeError
  end.

(* ================================================================== *)
(** ** Python sets of shapes, as duplicate-free lists *)

Definition mem (x : Mono) (s : list Mono) : bool := existsb (Mono_eqb x) s.

Fixpoint set_of (l : list Mono) : list Mono :=
  match l with
  | [] => []
  | x :: xs => let s := set_of xs in if mem x s then s else x :: s
  end.

Definition set_inter (a b : list Mono) : list Mono := filter (fun x => mem x b) a.
Definition set_diff (a b : list Mono) : list Mono := filter (fun x => negb (mem x b)) a.
Definition set_union (a b : list Mono) : list Mono := a ++ set_diff b a.

(** [set.union] and [set.intersection] applied to an unpacked list of
    sets: both are method descriptors that need at least one argument. *)
Definition set_union_star (sets : list (list Mono)) : result (list Mono) :=
  match sets with
  | [] => Raise TypeError
  | s :: rest => Ok (fold_left set_union rest s)
  end.

Definition set_intersection_star (sets : list (list Mono)) : result (list Mono) :=
  match sets with
  | [] => Raise TypeError
  | s :: rest => Ok (fold_left set_inter rest s)
  end.

(* ================================================================== *)
(** ** [internal_utils]: [groupby] and [_toposort] *)

Section Dicts.
Context {K V : Type} (eqb : K -> K -> bool).

(** A dict as an association list in insertion order. *)
Fixpoint dict_get (d : list (K * V)) (k : K) : option V :=
  match d with
  | [] => None
  | (k', v) :: rest => if eqb k k' then Some v else dict_get rest k
  end.

Fixpoint dict_set (d : list (K * V)) (k : K) (v : V) : list (K * V) :=
  match d with
  | [] => [(k, v)]
  | (k', v') :: rest =>
      if eqb k k' then (k', v) :: rest else (k', v') :: dict_set rest k v
  end.

Definition dict_keys (d : list (K * V)) : list K := map fst d.
End Dicts.

(** Modelled from the spec: [groupby(f, seq)] maps every key [f x] to the
    list of the members [x] with that key, in their order in [seq]. *)
Definition groupby {K A : Type} (eqb : K -> K -> bool) (f : A -> K)
    (seq : list A) : list (K * list A) :=
  fold_left
    (fun d x =>
       match dict_get eqb d (f x) with
       | Some l => dict_set eqb d (f x) (l ++ [x])
       | None => dict_set eqb d (f x) [x]
       end)
    seq [].

Definition get_set (d : list (Mono * list Mono)) (k : Mono) : list Mono :=
  match dict_get Mono_eqb d k with
  | Some s => s
  | None => []
  end.

(** Modelled from the spec: [_toposort(edges)] is Kahn's algorithm over a
    dict [{a: {b, c}}] in which [a] comes before [b] and [c]; ties are
    broken by declaration order; a cycle is a [ValueError]. *)
Definition reverse_dict (d : list (Mono * list Mono)) : list (Mono * list Mono) :=
  fold_left
    (fun r kv =>
       fold_left (fun r' v => dict_set Mono_eqb r' v (get_set r' v ++ [fst kv]))
                 (snd kv) r)
    d [].

Fixpoint toposort_loop (fuel : nat) (edges incoming : list (Mono * list Mono))
    (S L : list Mono) : list Mono * list (Mono * list Mono) :=
  match fuel with
  | O => (L, incoming)
  | Datatypes.S fuel' =>
      match S with
      | [] => (L, incoming)
      | n :: S' =>
          let '(S'', incoming') :=
            fold_left
              (fun (acc : list Mono * list (Mono * list Mono)) m =>
                 let '(S1, inc) := acc in
                 let rest := set_diff (get_set inc m) [n] in
                 let inc' := dict_set Mono_eqb inc m rest in
                 match rest with
                 | [] => (S1 ++ [m], inc')
                 | _ => (S1, inc')
                 end)
              (get_set edges n) (S', incoming) in
          toposort_loop fuel' edges incoming' S'' (L ++ [n])
      end
  end.

Definition _toposort (edges : list (Mono * list Mono)) : result (list Mono) :=
  let incoming := reverse_dict edges in
  let S := filter (fun v => negb (existsb (Mono_eqb v) (dict_keys incoming)))
                  (dict_keys edges) in
  let nodes := (List.length edges + List.length incoming)%nat in
  let '(L, incoming') := toposort_loop (Datatypes.S nodes) edges incoming S [] in
  if existsb (fun v => negb (len (get_set incoming' v) =? 0)) (dict_keys edges)
  then Raise ValueError
  else Ok L.

(* ================================================================== *)
(** ** The generality graph *)

(** [(a, b)] implies that [b] can turn into [a]. *)
Definition edge_list : list (Mono * Mono) :=
  [ (string_, int64);
    (string_, real);
    (string_, date_);
    (string_, datetime_);
    (string_, bool_);
    (datetime_, date_);
    (string_, datetime_);
    (int64, int32);
    (real, int64);
    (string_, null) ].

(** Defined by the module and not used by it. *)
Definition numeric_edges : list (Mono * Mono) :=
  [ (int64, int32);
    (real, int64);
    (string_, null) ].

Definition identity {A : Type} (x : A) : A := x.

(** [{a: [b, c]}]: the module rebinds [edges] to the dict that maps every
    specific kind to the set of kinds it turns into. *)
Definition edges : list (Mono * list Mono) :=
  map (fun kv => (fst kv, set_of (map fst (snd kv))))
      (groupby Mono_eqb (fun x : Mono * Mono => snd x) edge_list).

Definition toposorted_result : result (list Mono) := _toposort edges.

Definition toposorted : list Mono :=
  match toposorted_result with
  | Ok L => L
  | Raise _ => []
  end.

(** [l.index(x)] *)
Fixpoint list_index (l : list Mono) (x : Mono) : result Z :=
  match l with
  | [] => Raise ValueError
  | y :: ys => if Mono_eqb y x then Ok 0 else i <- list_index ys x ;; Ok (i + 1)
  end.

(** [min(s, key=key)]: the key is computed for every member. *)
Definition min_by_key (key : Mono -> result Z) (s : list Mono) : result Mono :=
  match s with
  | [] => Raise ValueError
  | x :: xs =>
      kx <- key x ;;
      best <- fold_left
                (fun acc y =>
                   b <- acc ;;
                   ky <- key y ;;
                   Ok (if ky <? snd b then (y, ky) else b))
                xs (Ok (x, kx)) ;;
      Ok (fst best)
  end.

(** The [while children:] loop of [descendents]. *)
Fixpoint descendents_loop (fuel : nat) (d : list (Mono * list Mono))
    (desc children : list Mono) : result (list Mono) :=
  match fuel with
  | O => Ok desc
  | S fuel' =>
      match children with
      | [] => Ok desc
      | _ :: _ =>
          u <- set_union_star (map (fun kid => set_of (get_set d kid)) desc) ;;
          let children' := set_diff u desc in
          descendents_loop fuel' d (set_union desc children') children'
      end
  end.

(** Every turn of the loop that does not leave it adds a value of [d] to
    [desc], so the number of values bounds the number of turns. *)
Definition descendents_fuel (d : list (Mono * list Mono)) : nat :=
  S (List.length (List.concat (map snd d))).

Definition descendents (d : list (Mono * list Mono)) (x : Mono) : result (list Mono) :=
  let desc := set_of [x] in
  let children := get_set d x in
  descendents_loop (descendents_fuel d) d desc children.

Definition lowest_common_dshape_in (order : list Mono) (dshapes : list Mono)
    : result (option Mono) :=
  sets <- mapM (descendents edges) dshapes ;;
  common <- set_intersection_star sets ;;
  match common with
  | [] => Ok None
  | _ :: _ => m <- min_by_key (list_index order) common ;; Ok (Some m)
  end.

Definition lowest_common_dshape (dshapes : list Mono) : result (option Mono) :=
  lowest_common_dshape_in toposorted dshapes.

(* ================================================================== *)
(** ** The unifier *)

Definition isnull (ds : Mono) : bool :=
  Mono_eqb ds null || Mono_eqb ds (DataShape [null]).

Definition unpack (ds : Mono) : Mono :=
  match ds with
  | DataShape [x] => x
  | _ => ds
  end.

Definition dict_get_default {K V : Type} (eqb : K -> K -> bool)
    (d : list (K * V)) (k : K) (default : V) : V :=
  match dict_get eqb d k with
  | Some v => v
  | None => default
  end.

Definition unite_base (dshapes : list Mono) : result (option Mono) :=
  let dshapes := map unpack dshapes in
  let bynull := groupby Bool.eqb isnull dshapes in
  base <- lowest_common_dshape (dict_get_default Bool.eqb bynull false []) ;;
  if truthy base then
    match base with
    | Some base =>
        let base :=
          match dict_get Bool.eqb bynull true with
          | Some (_ :: _) => Option base
          | _ => base
          end in
        Ok (Some (len dshapes ** base))
    | None => Ok None
    end
  else Ok None.

Definition unite_identical (dshapes : list Mono) : result (option Mono) :=
  if len (set_of dshapes) =? 1 then
    match dshapes with
    | d0 :: _ => Ok (Some (len dshapes ** d0))
    | [] => Raise IndexError
    end
  else Ok None.

(** [isinstance(ds, DataShape) and isdimension(ds[0])]; a [DataShape]
    always has at least one parameter. *)
Definition is_dimensioned (ds : Mono) : bool :=
  match ds with
  | DataShape (d :: _) => isdimension d
  | _ => false
  end.

(** [ds[0]]: the first parameter of a [DataShape]. *)
Definition item0 (ds : Mono) : Mono :=
  match ds with
  | DataShape (d :: _) => d
  | _ => ds
  end.

Definition unite_merge_dimensions_with
    (unite : list Mono -> result (option Mono)) (dshapes : list Mono)
    : result (option Mono) :=
  let n := len dshapes in
  if forallb is_dimensioned dshapes then
    let dims := map item0 dshapes in
    subs <- mapM Mono_subshape0 dshapes ;;
    base <- unite subs ;;
    if truthy base then
      match base with
      | Some base =>
          sub <- Mono_subshape0 base ;;
          if len (set_of dims) =? 1 then
            match dims with
            | d0 :: _ => Ok (Some (n ** mul d0 sub))
            | [] => Raise IndexError
            end
          else Ok (Some (n ** mul var sub))
      | None => Ok None
      end
    else Ok None
  else Ok None.

(** The keyword argument [unite] is never passed: it is [unite_identical]. *)
Definition unite_merge_dimensions (dshapes : list Mono) : result (option Mono) :=
  unite_merge_dimensions_with unite_identical dshapes.

Fixpoint do_one (funcs : list (list Mono -> result (option Mono)))
    (inp : list Mono) : result pyval :=
  match funcs with
  | [] => Ok (PList inp)
  | func :: rest =>
      r <- func inp ;;
      match r with
      | Some m => if Mono_bool m then Ok (PShape m) else do_one rest inp
      | None => do_one rest inp
      end
  end.

(** [Tuple], used as the last function of a [do_one] list. *)
Definition Tuple_func (dshapes : list Mono) : result (option Mono) :=
  Ok (Some (Tuple dshapes)).

(* ================================================================== *)
(** ** Sample values *)

(** A float as its decimal literal denotes it, before rounding:
    [(-1)^neg * mantissa * 10^exponent].  [discover] never looks at the
    value of a float. *)
Inductive pyfloat : Type :=
| Finite (neg : bool) (mantissa : Z) (exponent : Z)
| Inf (neg : bool)
| NaN.

Record pytime : Type := mk_time
  { hour : Z; minute : Z; second : Z; microsecond : Z }.

Record pydate : Type := mk_date
  { year : Z; month : Z; day : Z }.

Record pydatetime : Type := mk_datetime
  { dt_date : pydate; dt_time : pytime }.

(** The values [discover] dispatches on.  A dict is the list of its items;
    its keys are strings and pairwise different.  Values of the numeric
    array library are left out: their shape comes from an external table. *)
Inductive value : Type :=
| VInt (i : Z)
| VFloat (f : pyfloat)
| VBool (b : bool)
| VComplex (re im : pyfloat)
| VDatetime (dt : pydatetime)
| VDate (d : pydate)
| VTime (t : pytime)
| VNone
| VStr (s : string)
| VTuple (items : list value)
| VList (items : list value)
| VDict (items : list (string * value)).

(** Truth value of a [time] object: always true.  Like [date], the class
    defines neither [__bool__] nor [__len__]; only before Python 3.5 was
    midnight false. *)
Definition time_bool (t : pytime) : bool := true.

(** Truth value of a [date] object: the class defines neither [__bool__]
    nor [__len__]. *)
Definition date_bool (d : pydate) : bool := true.

(* ------------------------------------------------------------------ *)
(** *** The builtin coercions [int] and [float] on text *)

Definition is_space (c : ascii) : bool :=
  let n := nat_of_ascii c in
  ((9 <=? n) && (n <=? 13))%nat || (n =? 32)%nat.

Definition is_digit (c : ascii) : bool :=
  let n := nat_of_ascii c in ((48 <=? n) && (n <=? 57))%nat.

Definition digit_value (c : ascii) : Z := Z.of_nat (nat_of_ascii c) - 48.

Fixpoint lstrip (s : list ascii) : list ascii :=
  match s with
  | c :: r => if is_space c then lstrip r else s
  | [] => []
  end.

Definition strip (s : list ascii) : list ascii := rev (lstrip (rev (lstrip s))).

(** Longest prefix of digits, with its value and its length. *)
Fixpoint take_digits (acc : Z) (count : Z) (s : list ascii) : Z * Z * list ascii :=
  match s with
  | c :: r =>
      if is_digit c then take_digits (10 * acc + digit_value c) (count + 1) r
      else (acc, count, s)
  | [] => (acc, count, [])
  end.

Definition take_sign (s : list ascii) : bool * list ascii :=
  match s with
  | "-"%char :: r => (true, r)
  | "+"%char :: r => (false, r)
  | _ => (false, s)
  end.

(** [int(s)]: optional blanks, an optional sign, one or more digits. *)
Definition py_int (s : string) : result Z :=
  let '(neg, body) := take_sign (strip (list_ascii_of_string s)) in
  match take_digits 0 0 body with
  | (n, count, []) =>
      if count =? 0 then Raise ValueError else Ok (if neg then - n else n)
  | _ => Raise ValueError
  end.

Definition lower (c : ascii) : ascii :=
  let n := nat_of_ascii c in
  if ((65 <=? n) && (n <=? 90))%nat then ascii_of_nat (n + 32) else c.

Definition lower_string (s : list ascii) : string :=
  string_of_list_ascii (map lower s).

(** The exponent part [e[+-]digits]; text that is not one leaves the
    literal malformed. *)
Definition take_exponent (s : list ascii) : option Z :=
  match s with
  | [] => Some 0
  | c :: r =>
      if String.eqb (lower_string [c]) "e" then
        let '(neg, r') := take_sign r in
        match take_digits 0 0 r' with
        | (e, count, []) =>
            if count =? 0 then None else Some (if neg then - e else e)
        | _ => None
        end
      else None
  end.

(** [float(s)]: optional blanks, an optional sign, then [inf], [infinity],
    [nan] in any case, or a decimal literal with at least one digit. *)
Definition py_float (s : string) : result pyfloat :=
  let '(neg, body) := take_sign (strip (list_ascii_of_string s)) in
  let word := lower_string body in
  if String.eqb word "inf" || String.eqb word "infinity" then Ok (Inf neg)
  else if String.eqb word "nan" then Ok NaN
  else
    let '(ip, icount, rest) := take_digits 0 0 body in
    let '(m, fcount, rest') :=
      match rest with
      | "."%char :: r => take_digits ip 0 r
      | _ => (ip, 0, rest)
      end in
    if icount + fcount =? 0 then Raise ValueError
    else
      match take_exponent rest' with
      | Some e => Ok (Finite neg m (e - fcount))
      | None => Raise ValueError
      end.

Definition bools : list (string * bool) :=
  [ ("False", false); ("false", false); ("True", true); ("true", true) ].

Definition bools_getitem (s : string) : result bool :=
  match dict_get String.eqb bools s with
  | Some b => Ok b
  | None => Raise KeyError
  end.

(* ------------------------------------------------------------------ *)
(** *** Helpers on Python sequences *)

Section Distinct.
Context {A : Type} (eqb : A -> A -> bool).

(** [set(l)] for members compared with [eqb]. *)
Fixpoint distinct (l : list A) : list A :=
  match l with
  | [] => []
  | x :: xs => let s := distinct xs in if existsb (eqb x) s then s else x :: s
  end.
End Distinct.

Fixpoint heads {A : Type} (rows : list (list A)) : option (list A) :=
  match rows with
  | [] => Some []
  | [] :: _ => None
  | (x :: _) :: rest =>
      match heads rest with
      | Some hs => Some (x :: hs)
      | None => None
      end
  end.

Fixpoint zip_star_n {A : Type} (n : nat) (rows : list (list A)) : list (list A) :=
  match n with
  | O => []
  | S n' =>
      match heads rows with
      | Some hs => hs :: zip_star_n n' (map (@tl A) rows)
      | None => []
      end
  end.

(** [list(zip( *rows))]: one tuple per position, up to the shortest row. *)
Definition zip_star {A : Type} (rows : list (list A)) : list (list A) :=
  match rows with
  | [] => []
  | r :: _ => zip_star_n (List.length r) rows
  end.

(** [sorted] on strings, which compare by code point. *)
Fixpoint insert_sorted (k : string) (l : list string) : list string :=
  match l with
  | [] => [k]
  | x :: xs => if String.leb k x then k :: l else x :: insert_sorted k xs
  end.

Definition sorted (l : list string) : list string :=
  fold_right insert_sorted [] l.

(** Equality of two [frozenset]s of keys. *)
Definition keyset_eqb (a b : list string) : bool :=
  forallb (fun k => existsb (String.eqb k) b) a &&
  forallb (fun k => existsb (String.eqb k) a) b.

(** [d[key]] *)
Definition getitem {V : Type} (d : list (string * V)) (key : string) : result V :=
  match dict_get String.eqb d key with
  | Some v => Ok v
  | None => Raise KeyError
  end.

Definition as_sequence {A : Type} (v : value) (k : list value -> A) : option A :=
  match v with
  | VTuple xs | VList xs => Some (k xs)
  | _ => None
  end.

Definition as_dict {A : Type} (v : value) (k : list (string * value) -> A) : option A :=
  match v with
  | VDict d => Some (k d)
  | _ => None
  end.

(** All members, when every one is present. *)
Fixpoint all_some {A : Type} (l : list (option A)) : option (list A) :=
  match l with
  | [] => Some []
  | Some x :: rest =>
      match all_some rest with
      | Some xs => Some (x :: xs)
      | None => None
      end
  | None :: _ => None
  end.

(* ================================================================== *)
(** ** The discoverer *)

Definition unite : list Mono -> result pyval :=
  do_one [unite_identical; unite_base; unite_merge_dimensions].

Definition unite_or_tuple : list Mono -> result pyval :=
  do_one [unite_identical; unite_merge_dimensions; Tuple_func].

(** [n * v] where [v] is what [do_one] returned.  With [Tuple] as its last
    function [do_one] always returns a shape (lemma
    [unite_or_tuple_shape]), so the list case is never reached. *)
Definition times (n : Z) (v : pyval) : result Mono :=
  match v with
  | PShape m => Ok (n ** m)
  | PList _ => Raise TypeError
  end.

Definition as_shape (v : pyval) : result Mono :=
  match v with
  | PShape m => Ok m
  | PList _ => Raise TypeError
  end.

Definition discover_datetime (dt : pydatetime) : Mono :=
  if time_bool (dt_time dt) && date_bool (dt_date dt) then datetime_
  else if date_bool (dt_date dt) then date_
  else time_.

(** The cases of [discover] for values without members. *)
Definition discover_atom (v : value) : result Mono :=
  match v with
  | VInt _ => Ok int64
  | VFloat _ => Ok float64
  | VBool _ => Ok bool_
  | VComplex _ _ => Ok complex128
  | VDatetime dt => Ok (discover_datetime dt)
  | VDate _ => Ok date_
  | VTime _ => Ok time_
  | VNone => Ok null
  | _ => Raise TypeError
  end.

(** The body of the sequence case and of the dict case, written once over
    the type [E] of what stands for a member: the member itself, with
    [run] the recursive call, or the result of the recursive call on it,
    computed beforehand, with [run] the identity. *)
Section Bodies.
Context {E : Type} (run : E -> result Mono).

(** [unite([discover(x) for x in column]).subshape[0]] *)
Definition column_type (column : list E) : result Mono :=
  ts <- mapM run column ;;
  u <- unite ts ;;
  subshape0 u.

(** Lines 91 to 100: the sequence of sequences of one length. *)
Definition tuples_path (n : Z) (rows : option (list (list E)))
    : result (option Mono) :=
  match rows with
  | Some rows =>
      if len (distinct Z.eqb (map len rows)) =? 1 then
        let columns := zip_star rows in
        try_except
          (types <- mapM column_type columns ;;
           r <- unite_or_tuple types ;;
           t <- times n r ;;
           Ok (Some t))
          AttributeError (Ok None)
      else Ok None
  | None => Ok None
  end.

(** Lines 102 to 111: the sequence of dicts with one set of keys.  The
    name [unite] still denotes the three strategies here: line 97 rebinds
    it only on the way to the [return] of line 98, which raises no
    [AttributeError] (lemma [unite_or_tuple_no_AttributeError]). *)
Definition records_path (n : Z) (dicts : option (list (list (string * E))))
    : result (option Mono) :=
  match dicts with
  | Some dicts =>
      if len (distinct keyset_eqb (map (@dict_keys string E) dicts)) =? 1 then
        match dicts with
        | d0 :: _ =>
            let keys := sorted (dict_keys d0) in
            columns <- mapM (fun key => mapM (fun item => getitem item key) dicts)
                            keys ;;
            try_except
              (types <- mapM column_type columns ;;
               Ok (Some (n ** Record (combine keys types))))
              AttributeError (Ok None)
        | [] => Raise IndexError
        end
      else Ok None
  | None => Ok None
  end.

(** Lines 114 and 115. *)
Definition general_path (elems : list E) : result Mono :=
  types <- mapM run elems ;;
  r <- unite_or_tuple types ;;
  as_shape r.

Definition discover_seq_body (rows : option (list (list E)))
    (dicts : option (list (list (string * E)))) (elems : list E) : result Mono :=
  let n := len elems in
  r1 <- tuples_path n rows ;;
  match r1 with
  | Some t => Ok t
  | None =>
      r2 <- records_path n dicts ;;
      match r2 with
      | Some t => Ok t
      | None => general_path elems
      end
  end.

(** [Record([[k, discover(d[k])] for k in sorted(d)])] *)
Definition discover_dict_body (d : list (string * E)) : result Mono :=
  fields <- mapM (fun k => v <- getitem d k ;; t <- run v ;; Ok (k, t))
                 (sorted (dict_keys d)) ;;
  Ok (Record fields).
End Bodies.

(** The members of a sequence of sequences, and of a sequence of dicts. *)
Definition rows_of (seq : list value) : option (list (list value)) :=
  all_some (map (fun item => as_sequence item (fun xs => xs)) seq).

Definition dicts_of (seq : list value) : option (list (list (string * value))) :=
  all_some (map (fun item => as_dict item (fun d => d)) seq).

Section Discover.
(** The date-time parser of [dateutil], an external library. *)
Variable dateparse : string -> result pydatetime.

Definition string_coercions : list (string -> result value) :=
  [ fun s => i <- py_int s ;; Ok (VInt i);
    fun s => f <- py_float s ;; Ok (VFloat f);
    fun s => b <- bools_getitem s ;; Ok (VBool b);
    fun s => dt <- dateparse s ;; Ok (VDatetime dt) ].

(** The [for] loop of the text case; the coerced values have no members,
    so the recursive call is [discover_atom]. *)
Fixpoint try_coercions (fs : list (string -> result value)) (s : string) : Mono :=
  match fs with
  | [] => string_
  | f :: rest =>
      match (v <- f s ;; discover_atom v) with
      | Ok t => t
      | Raise _ => try_coercions rest s
      end
  end.

Definition discover_str (s : string) : Mono :=
  match s with
  | EmptyString => null
  | _ => try_coercions string_coercions s
  end.

(** [discover], by structural recursion: the recursive calls on the
    members of a sequence, of its rows and of its dicts are made first
    and handed to the bodies above, which run them in the order of the
    source (lemmas [discover_seq_eq] and [discover_dict_eq] give the
    equations in the form of the source). *)
Fixpoint discover (v : value) : result Mono :=
  let seq_case (seq : list value) : result Mono :=
    discover_seq_body (fun r => r)
      (all_some
         (map (fun item =>
                 match item with
                 | VTuple xs | VList xs => Some (map discover xs)
                 | _ => None
                 end) seq))
      (all_some
         (map (fun item =>
                 match item with
                 | VDict d =>
                     Some (map (fun kv => match kv with
                                          | (k, x) => (k, discover x)
                                          end) d)
                 | _ => None
                 end) seq))
      (map discover seq) in
  match v with
  | VStr s => Ok (discover_str s)
  | VTuple seq => seq_case seq
  | VList seq => seq_case seq
  | VDict d =>
      discover_dict_body (fun r => r)
        (map (fun kv => match kv with (k, x) => (k, discover x) end) d)
  | _ => discover_atom v
  end.

(** The sequence case as the source has it. *)
Definition discover_seq (seq : list value) : result Mono :=
  discover_seq_body discover (rows_of seq) (dicts_of seq) seq.

(** The dict case as the source has it. *)
Definition discover_dict (d : list (string * value)) : result Mono :=
  discover_dict_body discover d.
End Discover.

(* ------------------------------------------------------------------ *)
(** *** A sample date-time parser

    [YYYY-MM-DD], optionally followed by a blank or [T] and [HH:MM:SS].
    It stands in for the external parser where a concrete one is needed;
    nothing is assumed about the external parser itself. *)

Definition expect (c : ascii) (s : list ascii) : option (list ascii) :=
  match s with
  | c' :: r => if Ascii.eqb c c' then Some r else None
  | [] => None
  end.

Definition take_field (s : list ascii) : option (Z * list ascii) :=
  match take_digits 0 0 s with
  | (n, count, r) => if count =? 0 then None else Some (n, r)
  end.

Definition iso_time (s : list ascii) : option pytime :=
  match take_field s with
  | Some (h, r1) =>
      match expect ":" r1 with
      | Some r2 =>
          match take_field r2 with
          | Some (m, r3) =>
              match expect ":" r3 with
              | Some r4 =>
                  match take_field r4 with
                  | Some (sec, []) => Some (mk_time h m sec 0)
                  | _ => None
                  end
              | None => None
              end
          | None => None
          end
      | None => None
      end
  | None => None
  end.

Definition iso_dateparse (s : string) : result pydatetime :=
  match take_field (list_ascii_of_string s) with
  | Some (y, r1) =>
      match expect "-" r1 with
      | Some r2 =>
          match take_field r2 with
          | Some (m, r3) =>
              match expect "-" r3 with
              | Some r4 =>
                  match take_field r4 with
                  | Some (d, []) =>
                      Ok (mk_datetime (mk_date y m d) (mk_time 0 0 0 0))
                  | Some (d, c :: r5) =>
                      if Ascii.eqb c " " || Ascii.eqb c "T" then
                        match iso_time r5 with
                        | Some t => Ok (mk_datetime (mk_date y m d) t)
                        | None => Raise ValueError
                        end
                      else Raise ValueError
                  | None => Raise ValueError
                  end
              | None => Raise ValueError
              end
          | None => Raise ValueError
          end
      | None => Raise ValueError
      end
  | None => Raise ValueError
  end.

(* ================================================================== *)
(** ** The general fallback as the specification words it

    "run the full Unifier over the resulting sequence of N element shapes;
    the result is N * unifiedElementShape, or, if unification falls all
    the way through to its own fallback, N * HeterogeneousTuple": the
    three strategies, then a tuple with a leading count.  It is compared
    with [general_path], which follows the source. *)
Definition general_fallback_as_specified (types : list Mono) : result Mono :=
  u <- unite types ;;
  match u with
  | PShape m => Ok m
  | PList l => Ok (len l ** Tuple l)
  end.

(** The names of the fields of a record shape. *)
Definition field_names (m : Mono) : list string :=
  match m with
  | MRecord fs => map fst fs
  | _ => []
  end.

(** Ascending order of keys: strings compare by code point. *)
Definition key_le (a b : string) : Prop := String.leb a b = true.

(** ** Promotion, as the edge list states it

    [promotes x z]: a value of kind [x] can be turned into one of kind
    [z], in any number of steps along the edges ([(a, b)] lets [b] turn
    into [a]).  The set of such [z] is what the specification calls the
    reachable set of [x]; it is compared with what [descendents]
    computes. *)
Inductive promotes : Mono -> Mono -> Prop :=
| promotes_refl (x : Mono) : promotes x x
| promotes_step (x y z : Mono) :
    promotes x y -> In (z, y) edge_list -> promotes x z.

(** A common promotion target of a list of shapes. *)
Definition common_target (dshapes : list Mono) (c : Mono) : Prop :=
  Forall (fun x => promotes x c) dshapes.

(** An order of the kinds of the graph in which every kind comes before
    the kinds it turns into: what a topological sort of [edges] returns. *)
Definition topological (order : list Mono) : Prop :=
  forall a b, In (a, b) edge_list ->
    exists i j, list_index order b = Ok i /\ list_index order a = Ok j /\ i < j.

(** The kinds that some edge mentions. *)
Definition in_graph (k : ctype) : bool :=
  match k with
  | k_complex128 | k_time => false
  | _ => true
  end.

(** ** The date-time case as the specification words it

    "If it carries both a non-trivial date component and a non-trivial
    time component, datetime kind; if only a date component, date kind;
    otherwise time kind."  The time component is trivial at midnight; a
    date-time value always has a year, a month and a day.  It is compared
    with [discover_datetime], which follows the source. *)
Definition trivial_time (t : pytime) : bool :=
  (hour t =? 0) && (minute t =? 0) && (second t =? 0) && (microsecond t =? 0).

Definition trivial_date (d : pydate) : bool := false.

Definition discover_datetime_as_specified (dt : pydatetime) : Mono :=
  if negb (trivial_date (dt_date dt)) && negb (trivial_time (dt_time dt))
  then datetime_
  else if negb (trivial_date (dt_date dt)) then date_
  else time_.

(** ** A column path that is abandoned

    Taking [columns] in order, the first column that yields no shape is
    one whose members have shapes that no strategy unifies: the unifier
    hands them back as a list, which has no [subshape]. *)
Definition no_strategy_column (disc : value -> result Mono)
    (columns : list (list value)) : Prop :=
  exists pre column post types ts l,
    columns = pre ++ column :: post /\
    mapM (column_type disc) pre = Ok types /\
    mapM disc column = Ok ts /\
    unite ts = Ok (PList l).
(* ================================================================== *)
(** * Properties *)

(** ** Structural equality of shapes *)

Lemma Mono_eqb_Tuple l1 l2 : Mono_eqb (MTuple l1) (MTuple l2) = Monos_eqb l1 l2.
Proof.
  simpl. revert l2. induction l1 as [|x xs IH]; intros [|y ys]; simpl; auto;
    try now rewrite IH.
Qed.

Lemma Mono_eqb_DataShape l1 l2 :
  Mono_eqb (DataShape l1) (DataShape l2) = Monos_eqb l1 l2.
Proof.
  simpl. revert l2. induction l1 as [|x xs IH]; intros [|y ys]; simpl; auto;
    try now rewrite IH.
Qed.

Lemma Mono_eqb_Record f1 f2 : Mono_eqb (MRecord f1) (MRecord f2) = fields_eqb f1 f2.
Proof.
  simpl. revert f2.
  induction f1 as [|[k1 x] xs IH]; intros [|[k2 y] ys]; simpl; auto;
    try now rewrite IH.
Qed.

Lemma ctype_eqb_eq a b : ctype_eqb a b = true <-> a = b.
Proof. destruct a, b; simpl; split; congruence. Qed.

Lemma Mono_eqb_eq : forall a b, Mono_eqb a b = true <-> a = b.
Proof.
  induction a as [k|m IH|l IH|fs IH|n| |l IH] using Mono_nested_ind;
    intros b; destruct b as [k'|m'|l'|fs'|n'| |l'];
    try (simpl; split; congruence).
  - simpl. rewrite ctype_eqb_eq. split; congruence.
  - simpl. rewrite IH. split; congruence.
  - rewrite Mono_eqb_Tuple.
    enough (Monos_eqb l l' = true <-> l = l') as -> by (split; congruence).
    revert l'. induction IH as [|x xs Hx _ IHxs]; intros [|y ys]; simpl;
      try (split; congruence).
    rewrite andb_true_iff, Hx, IHxs. split; [intros []|intros [=]]; subst; auto.
  - rewrite Mono_eqb_Record.
    enough (fields_eqb fs fs' = true <-> fs = fs') as -> by (split; congruence).
    revert fs'. induction IH as [|[k x] xs Hx _ IHxs]; intros [|[k' y] ys]; simpl;
      try (split; congruence).
    simpl in Hx.
    rewrite !andb_true_iff, String.eqb_eq, Hx, IHxs.
    split; [intros [[] ]|intros [=]]; subst; auto.
  - simpl. rewrite Z.eqb_eq. split; congruence.
  - rewrite Mono_eqb_DataShape.
    enough (Monos_eqb l l' = true <-> l = l') as -> by (split; congruence).
    revert l'. induction IH as [|x xs Hx _ IHxs]; intros [|y ys]; simpl;
      try (split; congruence).
    rewrite andb_true_iff, Hx, IHxs. split; [intros []|intros [=]]; subst; auto.
Qed.

Lemma Mono_eqb_refl a : Mono_eqb a a = true.
Proof. now apply Mono_eqb_eq. Qed.

Lemma Mono_eqb_neq a b : Mono_eqb a b = false <-> a <> b.
Proof.
  rewrite <- Mono_eqb_eq. destruct (Mono_eqb a b); split; congruence.
Qed.

(** ** The error monad and list comprehensions *)

Lemma bind_Ok {A B : Type} (a : A) (k : A -> result B) : bind (Ok a) k = k a.
Proof. reflexivity. Qed.

Lemma bind_ext {A B : Type} (r : result A) (k1 k2 : A -> result B) :
  (forall a, k1 a = k2 a) -> bind r k1 = bind r k2.
Proof. intros H. destruct r; simpl; auto. Qed.

Lemma mapM_ext {A B : Type} (f g : A -> result B) (l : list A) :
  (forall a, f a = g a) -> mapM f l = mapM g l.
Proof.
  intros H. induction l as [|x xs IH]; simpl; auto.
  now rewrite H, IH.
Qed.

Lemma mapM_map {A B C : Type} (f : B -> result C) (g : A -> B) (l : list A) :
  mapM f (map g l) = mapM (fun a => f (g a)) l.
Proof.
  induction l as [|x xs IH]; simpl; auto.
  now rewrite IH.
Qed.

Lemma mapM_Ok_length {A B : Type} (f : A -> result B) (l : list A) (r : list B) :
  mapM f l = Ok r -> List.length r = List.length l.
Proof.
  revert r. induction l as [|x xs IH]; simpl; intros r H.
  - now inversion H.
  - destruct (f x); simpl in H; try discriminate.
    destruct (mapM f xs); simpl in H; try discriminate.
    inversion H; subst. simpl. f_equal. now apply IH.
Qed.

Lemma mapM_Forall2 {A B : Type} (f : A -> result B) (l : list A) (r : list B) :
  mapM f l = Ok r <-> Forall2 (fun a b => f a = Ok b) l r.
Proof.
  revert r. induction l as [|x xs IH]; simpl; intros r.
  - split; intros H; inversion H; subst; constructor.
  - split.
    + intros H. destruct (f x) eqn:Hx; simpl in H; try discriminate.
      destruct (mapM f xs) eqn:Hxs; simpl in H; try discriminate.
      inversion H; subst. constructor; auto. now apply IH.
    + intros H. inversion H as [|a b l' r' Hx Hrest]; subst.
      rewrite Hx. simpl. apply IH in Hrest. now rewrite Hrest.
Qed.

Lemma mapM_fst {A B : Type} (f : A -> result (A * B)) (l : list A)
    (r : list (A * B)) :
  (forall a y, f a = Ok y -> fst y = a) ->
  mapM f l = Ok r -> map fst r = l.
Proof.
  intros Hf. revert r. induction l as [|x xs IH]; simpl; intros r H.
  - now inversion H.
  - destruct (f x) as [y|] eqn:Hx; simpl in H; try discriminate.
    destruct (mapM f xs) as [ys|]; simpl in H; try discriminate.
    inversion H; subst. simpl. f_equal; auto.
Qed.

Lemma mapM_total {A B : Type} (f : A -> result B) (l : list A) :
  (forall a, In a l -> exists b, f a = Ok b) -> exists r, mapM f l = Ok r.
Proof.
  induction l as [|x xs IH]; simpl; intros H; eauto.
  destruct (H x) as [b Hb]; auto. rewrite Hb. simpl.
  destruct IH as [r Hr]; auto. rewrite Hr. simpl. eauto.
Qed.

(** ** The structural definition of [discover] against the source *)

Lemma heads_map {A B : Type} (f : A -> B) (rows : list (list A)) :
  heads (map (map f) rows) = option_map (map f) (heads rows).
Proof.
  induction rows as [|[|x r] rows IH]; simpl; auto.
  rewrite IH. now destruct (heads rows).
Qed.

Lemma zip_star_n_map {A B : Type} (f : A -> B) (n : nat) (rows : list (list A)) :
  zip_star_n n (map (map f) rows) = map (map f) (zip_star_n n rows).
Proof.
  revert rows. induction n as [|n IH]; intros rows; simpl; auto.
  rewrite heads_map. destruct (heads rows); simpl; auto.
  f_equal. rewrite <- IH. f_equal.
  rewrite !map_map. apply map_ext. intros [|x r]; reflexivity.
Qed.

Lemma zip_star_map {A B : Type} (f : A -> B) (rows : list (list A)) :
  zip_star (map (map f) rows) = map (map f) (zip_star rows).
Proof.
  destruct rows as [|r rows]; simpl; auto.
  rewrite length_map. apply (zip_star_n_map f _ (r :: rows)).
Qed.

Lemma len_map {A B : Type} (f : A -> B) (l : list A) : len (map f l) = len l.
Proof. unfold len. now rewrite length_map. Qed.

Section Bodies_map.
Context {E F : Type} (f : E -> F) (run : F -> result Mono).

Let fkv (kv : string * E) : string * F := (fst kv, f (snd kv)).

Lemma column_type_map (column : list E) :
  column_type run (map f column) = column_type (fun e => run (f e)) column.
Proof. unfold column_type. now rewrite mapM_map. Qed.

Lemma tuples_path_map (n : Z) (rows : option (list (list E))) :
  tuples_path run n (option_map (map (map f)) rows)
  = tuples_path (fun e => run (f e)) n rows.
Proof.
  destruct rows as [rows|]; simpl; auto.
  rewrite map_map.
  rewrite (map_ext (fun x => len (map f x)) len) by (intros; apply len_map).
  destruct (_ =? 1); auto.
  rewrite zip_star_map, mapM_map.
  now rewrite (mapM_ext _ _ _ column_type_map).
Qed.

Lemma dict_keys_map (d : list (string * E)) : dict_keys (map fkv d) = dict_keys d.
Proof. unfold dict_keys. rewrite map_map. now apply map_ext. Qed.

Lemma getitem_map (d : list (string * E)) (key : string) :
  getitem (map fkv d) key = (v <- getitem d key ;; Ok (f v)).
Proof.
  unfold getitem. induction d as [|[k v] d IH]; simpl; auto.
  destruct (String.eqb key k); auto.
Qed.

Lemma getitem_column_map (dicts : list (list (string * E))) (key : string) :
  mapM (fun item => getitem item key) (map (map fkv) dicts)
  = (c <- mapM (fun item => getitem item key) dicts ;; Ok (map f c)).
Proof.
  induction dicts as [|d dicts IH]; simpl; auto.
  rewrite getitem_map. destruct (getitem d key); simpl; auto.
  rewrite IH. now destruct (mapM _ dicts).
Qed.

Lemma getitem_columns_map (dicts : list (list (string * E))) (keys : list string) :
  mapM (fun key => mapM (fun item => getitem item key) (map (map fkv) dicts)) keys
  = (cs <- mapM (fun key => mapM (fun item => getitem item key) dicts) keys ;;
     Ok (map (map f) cs)).
Proof.
  induction keys as [|k keys IH]; simpl; auto.
  rewrite getitem_column_map.
  destruct (mapM (fun item => getitem item k) dicts); simpl; auto.
  rewrite IH.
  now destruct (mapM (fun key : string =>
                        mapM (fun item : list (string * E) => getitem item key)
                             dicts) keys).
Qed.

Lemma records_path_map (n : Z) (dicts : option (list (list (string * E)))) :
  records_path run n (option_map (map (map fkv)) dicts)
  = records_path (fun e => run (f e)) n dicts.
Proof.
  destruct dicts as [dicts|]; simpl; auto.
  rewrite map_map.
  rewrite (map_ext (fun x => dict_keys (map fkv x)) (@dict_keys string E))
    by (intros; apply dict_keys_map).
  destruct (_ =? 1); auto.
  destruct dicts as [|d0 dicts]; simpl; auto.
  rewrite dict_keys_map.
  rewrite (getitem_columns_map (d0 :: dicts)).
  destruct (mapM _ (sorted (dict_keys d0))) as [cs|]; simpl; auto.
  rewrite mapM_map.
  now rewrite (mapM_ext _ _ _ column_type_map).
Qed.

Lemma general_path_map (elems : list E) :
  general_path run (map f elems) = general_path (fun e => run (f e)) elems.
Proof. unfold general_path. now rewrite mapM_map. Qed.

Lemma discover_seq_body_map rows dicts (elems : list E) :
  discover_seq_body run (option_map (map (map f)) rows)
    (option_map (map (map fkv)) dicts) (map f elems)
  = discover_seq_body (fun e => run (f e)) rows dicts elems.
Proof.
  unfold discover_seq_body.
  now rewrite len_map, tuples_path_map, records_path_map, general_path_map.
Qed.

Lemma discover_dict_body_map (d : list (string * E)) :
  discover_dict_body run (map fkv d) = discover_dict_body (fun e => run (f e)) d.
Proof.
  unfold discover_dict_body. rewrite dict_keys_map.
  f_equal. apply mapM_ext. intros k. rewrite getitem_map.
  now destruct (getitem d k).
Qed.
End Bodies_map.

Lemma all_some_map {A B : Type} (g : A -> B) (l : list (option A)) :
  all_some (map (option_map g) l) = option_map (map g) (all_some l).
Proof.
  induction l as [|[x|] l IH]; simpl; auto.
  rewrite IH. now destruct (all_some l).
Qed.

Section Discover_equations.
Variable dateparse : string -> result pydatetime.
Abbreviation discover := (discover dateparse).

Lemma discover_seq_case (seq : list value) :
  discover_seq_body (fun r => r)
    (all_some
       (map (fun item =>
               match item with
               | VTuple xs | VList xs => Some (map discover xs)
               | _ => None
               end) seq))
    (all_some
       (map (fun item =>
               match item with
               | VDict d =>
                   Some (map (fun kv => match kv with
                                        | (k, x) => (k, discover x)
                                        end) d)
               | _ => None
               end) seq))
    (map discover seq)
  = discover_seq dateparse seq.
Proof.
  unfold discover_seq, rows_of, dicts_of.
  rewrite <- (discover_seq_body_map discover (fun r => r)).
  f_equal.
  - rewrite <- all_some_map, map_map. f_equal. apply map_ext.
    intros []; reflexivity.
  - rewrite <- all_some_map, map_map. f_equal. apply map_ext.
    intros []; simpl; auto. f_equal. apply map_ext. now intros [].
Qed.

(** [discover] on a list, in the form of the source. *)
Lemma discover_VList (seq : list value) :
  discover (VList seq) = discover_seq dateparse seq.
Proof. apply discover_seq_case. Qed.

(** [discover] on a tuple, in the form of the source. *)
Lemma discover_VTuple (seq : list value) :
  discover (VTuple seq) = discover_seq dateparse seq.
Proof. apply discover_seq_case. Qed.

(** [discover] on a dict, in the form of the source. *)
Lemma discover_VDict (d : list (string * value)) :
  discover (VDict d) = discover_dict dateparse d.
Proof.
  unfold discover_dict.
  rewrite <- (discover_dict_body_map discover (fun r => r)).
  simpl. f_equal. apply map_ext. now intros [].
Qed.
End Discover_equations.

(** ** The generality graph, evaluated *)

Lemma edges_eq :
  edges = [ (int64, [string_; real]);
            (real, [string_]);
            (date_, [string_; datetime_]);
            (datetime_, [string_]);
            (bool_, [string_]);
            (int32, [int64]);
            (null, [string_]) ].
Proof. reflexivity. Qed.

(** The graph has no cycle: [_toposort] returns, specific kinds first. *)
Lemma toposorted_eq :
  toposorted_result = Ok toposorted /\
  toposorted = [date_; bool_; int32; null; datetime_; int64; real; string_].
Proof. split; reflexivity. Qed.

(** A kind that no edge mentions is not in the order. *)
Lemma toposorted_misses_complex128_time :
  list_index toposorted complex128 = Raise ValueError /\
  list_index toposorted time_ = Raise ValueError.
Proof. split; reflexivity. Qed.

(** ** Shapes built by [mul] *)

Lemma mul_bool (d m : Mono) : Mono_bool (mul d m) = true.
Proof. destruct m as [k|x|l|fs|n| |[|p ps]]; reflexivity. Qed.

Lemma mul_neq (d m : Mono) : mul d m <> m.
Proof.
  destruct m as [k|x|l|fs|n| |ps]; simpl; try discriminate.
  intros H. injection H as H.
  apply (f_equal (@List.length Mono)) in H. simpl in H. lia.
Qed.

Lemma mul_subshape0 (d m : Mono) :
  isdimension d = true -> m <> DataShape [] ->
  Mono_subshape0 (mul d m) = Ok (pack m).
Proof.
  intros Hd Hm.
  destruct m as [k|x|l|fs|n| |[|p ps]]; simpl; rewrite ?Hd; auto.
  congruence.
Qed.

Lemma Mono_bool_pack (m : Mono) : Mono_bool m = true -> m <> DataShape [].
Proof. intros H ->. discriminate. Qed.

(** ** [do_one] *)

Lemma do_one_cons_shape func rest inp m :
  func inp = Ok (Some m) -> Mono_bool m = true ->
  do_one (func :: rest) inp = Ok (PShape m).
Proof. intros H Hm. simpl. rewrite H. simpl. now rewrite Hm. Qed.

Lemma do_one_cons_none func rest inp :
  func inp = Ok None -> do_one (func :: rest) inp = do_one rest inp.
Proof. intros H. simpl. now rewrite H. Qed.

(** With [Tuple] last, [do_one] does not hand back its input list. *)
Lemma unite_or_tuple_shape (ts : list Mono) (v : pyval) :
  unite_or_tuple ts = Ok v -> exists m, v = PShape m.
Proof.
  unfold unite_or_tuple. simpl.
  destruct (unite_identical ts) as [[m|]|]; simpl; try discriminate.
  - destruct (Mono_bool m); [intros [= <-]; eauto|].
    destruct (unite_merge_dimensions ts) as [[m'|]|]; simpl; try discriminate.
    + destruct (Mono_bool m'); intros [= <-]; eauto.
    + intros [= <-]; eauto.
  - destruct (unite_merge_dimensions ts) as [[m'|]|]; simpl; try discriminate.
    + destruct (Mono_bool m'); intros [= <-]; eauto.
    + intros [= <-]; eauto.
Qed.

(** ** [unite_identical] *)

Lemma mem_eq (x : Mono) (s : list Mono) : mem x s = true <-> In x s.
Proof.
  unfold mem. rewrite existsb_exists. split.
  - intros [y [Hy Heq]]. apply Mono_eqb_eq in Heq. now subst.
  - intros H. exists x. split; auto. apply Mono_eqb_refl.
Qed.

Lemma set_of_In (x : Mono) (l : list Mono) : In x (set_of l) <-> In x l.
Proof.
  induction l as [|y ys IH]; simpl; [tauto|].
  destruct (mem y (set_of ys)) eqn:Hm.
  - apply mem_eq in Hm. rewrite IH. split; [tauto|].
    intros [<-|H]; [now apply IH|assumption].
  - simpl. rewrite IH. tauto.
Qed.

Lemma set_of_NoDup (l : list Mono) : NoDup (set_of l).
Proof.
  induction l as [|y ys IH]; simpl; [constructor|].
  destruct (mem y (set_of ys)) eqn:Hm; auto.
  constructor; auto. rewrite <- mem_eq. congruence.
Qed.

(** A list whose set has one member repeats its first member. *)
Lemma set_of_single_nat (l : list Mono) :
  List.length (set_of l) = 1%nat <-> exists x xs, l = x :: xs /\ Forall (eq x) xs.
Proof.
  split.
  - intros H. destruct l as [|x xs]; [discriminate|].
    exists x, xs. split; auto.
    destruct (set_of (x :: xs)) as [|y [|z s]] eqn:Hs; simpl in H; try discriminate.
    assert (Hy : forall a, In a (x :: xs) -> a = y).
    { intros a Ha. apply set_of_In in Ha. rewrite Hs in Ha.
      destruct Ha as [->|[]]. reflexivity. }
    apply Forall_forall. intros a Ha.
    rewrite (Hy x) by (left; reflexivity). symmetry. apply Hy. now right.
  - intros [x [xs [-> Hall]]].
    induction Hall as [|y ys <- _ IH]; simpl; auto.
    simpl in IH. destruct (mem x (set_of ys)) eqn:Hm.
    + rewrite Hm. exact IH.
    + unfold mem. simpl. rewrite Mono_eqb_refl. simpl. exact IH.
Qed.

Lemma set_of_single (l : list Mono) :
  len (set_of l) = 1 <-> exists x xs, l = x :: xs /\ Forall (eq x) xs.
Proof. rewrite <- set_of_single_nat. unfold len. lia. Qed.

Lemma unite_identical_Some (l : list Mono) (r : Mono) :
  unite_identical l = Ok (Some r) <->
  exists x xs, l = x :: xs /\ Forall (eq x) xs /\ r = len l ** x.
Proof.
  unfold unite_identical. destruct (len (set_of l) =? 1) eqn:H.
  - apply Z.eqb_eq in H. pose proof (proj1 (set_of_single l) H) as [x [xs [-> Hall]]].
    split.
    + intros [= <-]. eauto.
    + intros [x' [xs' [[= <- <-] [_ ->]]]]. reflexivity.
  - split; [discriminate|].
    intros [x [xs [-> [Hall _]]]].
    apply Z.eqb_neq in H. exfalso. apply H. apply set_of_single. eauto.
Qed.

Lemma unite_identical_total (l : list Mono) :
  exists r, unite_identical l = Ok r.
Proof.
  unfold unite_identical. destruct (len (set_of l) =? 1) eqn:H; eauto.
  apply Z.eqb_eq, set_of_single in H. destruct H as [x [xs [-> _]]]. eauto.
Qed.

Lemma unite_identical_nil : unite_identical [] = Ok None.
Proof. reflexivity. Qed.

Lemma unite_identical_singleton (u : Mono) :
  unite_identical [u] = Ok (Some (1 ** u)).
Proof. reflexivity. Qed.

(* ================================================================== *)
(** * The discoverer on values without members *)

Section Discover_scalars.
Variable dateparse : string -> result pydatetime.
Abbreviation discover := (discover dateparse).

Lemma discover_atom_eq (v : value) (t : Mono) :
  discover_atom v = Ok t -> discover v = Ok t.
Proof. destruct v; simpl; auto; discriminate. Qed.

(** The text case, one coercion after the other. *)
Lemma discover_str_chain (s : string) :
  s <> EmptyString ->
  discover (VStr s) =
    match py_int s with
    | Ok i => discover (VInt i)
    | Raise _ =>
        match py_float s with
        | Ok f => discover (VFloat f)
        | Raise _ =>
            match bools_getitem s with
            | Ok b => discover (VBool b)
            | Raise _ =>
                match dateparse s with
                | Ok dt => discover (VDatetime dt)
                | Raise _ => Ok string_
                end
            end
        end
    end.
Proof.
  intros Hs. simpl. unfold discover_str.
  destruct s as [|c s]; [congruence|].
  unfold string_coercions, try_coercions.
  destruct (py_int _); simpl; auto.
  destruct (py_float _); simpl; auto.
  destruct (bools_getitem _); simpl; auto.
  destruct (dateparse _); simpl; auto.
Qed.

(** C5: on text, [discover] returns [null] for the empty string and
    otherwise tries the coercions in the fixed order integer, float,
    boolean token, date-time, recursing on the first value a coercion
    returns; the opaque string kind is the answer only when all four
    fail.  In particular "42" is [int64], "3.14" is [real], "true" is
    [bool_], "" is [null] and, with a date-time parser that rejects it,
    "hello" is [string_]. *)
Theorem discover_text_coercion_order
    (Hhello : exists e, dateparse "hello" = Raise e) :
  discover (VStr "") = Ok null /\
  (forall s, s <> EmptyString ->
     discover (VStr s) =
       match py_int s with
       | Ok i => discover (VInt i)
       | Raise _ =>
           match py_float s with
           | Ok f => discover (VFloat f)
           | Raise _ =>
               match bools_getitem s with
               | Ok b => discover (VBool b)
               | Raise _ =>
                   match dateparse s with
                   | Ok dt => discover (VDatetime dt)
                   | Raise _ => Ok string_
                   end
               end
           end
       end) /\
  (forall s b, bools_getitem s = Ok b <->
     (s = "True" \/ s = "true") /\ b = true \/
     (s = "False" \/ s = "false") /\ b = false) /\
  discover (VStr "42") = Ok int64 /\
  discover (VStr "3.14") = Ok real /\
  discover (VStr "true") = Ok bool_ /\
  discover (VStr "hello") = Ok string_.
Proof.
  destruct Hhello as [e He].
  split; [reflexivity|]. split; [apply discover_str_chain|].
  split; [|repeat split; try reflexivity].
  - intros s b. unfold bools_getitem. simpl.
    destruct (String.eqb s "False") eqn:H1; [apply String.eqb_eq in H1; subst|].
    { split; [intros [= <-]; tauto|].
      intros [[[|] _]|[_ ->]]; try discriminate; reflexivity. }
    destruct (String.eqb s "false") eqn:H2; [apply String.eqb_eq in H2; subst|].
    { split; [intros [= <-]; tauto|].
      intros [[[|] _]|[_ ->]]; try discriminate; reflexivity. }
    destruct (String.eqb s "True") eqn:H3; [apply String.eqb_eq in H3; subst|].
    { split; [intros [= <-]; tauto|].
      intros [[_ ->]|[[|] _]]; try discriminate; reflexivity. }
    destruct (String.eqb s "true") eqn:H4; [apply String.eqb_eq in H4; subst|].
    { split; [intros [= <-]; tauto|].
      intros [[_ ->]|[[|] _]]; try discriminate; reflexivity. }
    apply String.eqb_neq in H1, H2, H3, H4.
    split; [discriminate|]. intros [[[|] _]|[[|] _]]; congruence.
  - rewrite discover_str_chain by discriminate.
    change (py_int "hello") with (@Raise Z ValueError).
    change (py_float "hello") with (@Raise pyfloat ValueError).
    change (bools_getitem "hello") with (@Raise bool KeyError).
    cbv iota. now rewrite He.
Qed.

(** C8: the claim gives the date kind to a date-time value whose time
    part is trivial (midnight).  The code tests [dt.time()] and
    [dt.date()] as conditions, and both objects are always true: it
    returns the datetime kind for every date-time value, the branches for
    the date kind and the time kind are never taken, and at midnight the
    result differs from the specified one. *)
Theorem discover_datetime_midnight :
  (forall dt, discover (VDatetime dt) = Ok datetime_) /\
  (forall dt, trivial_time (dt_time dt) = true ->
     discover_datetime_as_specified dt = date_ /\
     discover (VDatetime dt) <> Ok (discover_datetime_as_specified dt)) /\
  (forall dt, trivial_time (dt_time dt) = false ->
     discover (VDatetime dt) = Ok (discover_datetime_as_specified dt)) /\
  discover (VDatetime (mk_datetime (mk_date 2014 1 2) (mk_time 0 0 0 0)))
    = Ok datetime_ /\
  discover_datetime_as_specified
    (mk_datetime (mk_date 2014 1 2) (mk_time 0 0 0 0)) = date_.
Proof.
  split; [reflexivity|]. split; [|split; [|split; reflexivity]].
  - intros dt H. unfold discover_datetime_as_specified, trivial_date.
    rewrite H. cbn. split; [reflexivity|discriminate].
  - intros dt H. unfold discover_datetime_as_specified, trivial_date.
    rewrite H. reflexivity.
Qed.

(** Neither the date kind nor the time kind is the answer for a date-time
    value. *)
Lemma discover_datetime_never_time (dt : pydatetime) :
  discover (VDatetime dt) <> Ok time_ /\ discover (VDatetime dt) <> Ok date_.
Proof. split; discriminate. Qed.
End Discover_scalars.

Lemma discover_text_coercion_order_witness :
  (exists e, iso_dateparse "hello" = Raise e) /\
  discover iso_dateparse (VStr "hello") = Ok string_ /\
  discover iso_dateparse (VStr "42") = Ok int64.
Proof.
  assert (H : exists e, iso_dateparse "hello" = Raise e)
    by (exists ValueError; reflexivity).
  split; [exact H|].
  pose proof (discover_text_coercion_order iso_dateparse H) as T.
  split; [apply T|apply T].
Defined.

(** Text that the sample parser reads as a date or as a date and a time:
    the parser returns a date-time value, at midnight when the text has no
    time, and the kind is the datetime kind. *)
Example discover_text_dates :
  discover iso_dateparse (VStr "2014-01-02") = Ok datetime_ /\
  discover iso_dateparse (VStr "2014-01-02 10:30:00") = Ok datetime_ /\
  discover iso_dateparse (VStr "2014-01-02T00:00:00") = Ok datetime_.
Proof. repeat split; reflexivity. Qed.

(* ================================================================== *)
(** * Unifying what was unified *)

(** Each strategy answers with a shape that carries a leading dimension. *)
Lemma unite_identical_mul (l : list Mono) (r : Mono) :
  unite_identical l = Ok (Some r) -> exists d m, r = mul d m.
Proof.
  unfold unite_identical. destruct (_ =? 1); [|discriminate].
  destruct l; [discriminate|]. intros [= <-]. unfold mul_int. eauto.
Qed.

Lemma unite_base_mul (l : list Mono) (r : Mono) :
  unite_base l = Ok (Some r) -> exists d m, r = mul d m.
Proof.
  unfold unite_base.
  destruct (lowest_common_dshape _) as [[b|]|]; simpl; try discriminate.
  destruct (Mono_bool b); [|discriminate].
  intros [= <-]. unfold mul_int. eauto.
Qed.

Lemma unite_merge_dimensions_mul (l : list Mono) (r : Mono) :
  unite_merge_dimensions l = Ok (Some r) -> exists d m, r = mul d m.
Proof.
  unfold unite_merge_dimensions, unite_merge_dimensions_with.
  destruct (forallb _ _); [|discriminate].
  destruct (mapM _ _); simpl; try discriminate.
  destruct (unite_identical _) as [[b|]|]; simpl; try discriminate.
  destruct (Mono_bool b); [|discriminate].
  destruct (Mono_subshape0 b); simpl; try discriminate.
  destruct (_ =? 1).
  - destruct (map item0 l); [discriminate|]. intros [= <-]. unfold mul_int. eauto.
  - intros [= <-]. unfold mul_int. eauto.
Qed.

Lemma unite_shape_mul (l : list Mono) (u : Mono) :
  unite l = Ok (PShape u) -> exists d m, u = mul d m.
Proof.
  unfold unite. simpl.
  destruct (unite_identical l) as [[m1|]|] eqn:H1; simpl; try discriminate.
  { destruct (Mono_bool m1) eqn:B1.
    - intros [= <-]. eapply unite_identical_mul; eauto.
    - apply unite_identical_mul in H1 as [d [m ->]]. now rewrite mul_bool in B1. }
  destruct (unite_base l) as [[m2|]|] eqn:H2; simpl; try discriminate.
  { destruct (Mono_bool m2) eqn:B2.
    - intros [= <-]. eapply unite_base_mul; eauto.
    - apply unite_base_mul in H2 as [d [m ->]]. now rewrite mul_bool in B2. }
  destruct (unite_merge_dimensions l) as [[m3|]|] eqn:H3; simpl; try discriminate.
  destruct (Mono_bool m3) eqn:B3.
  - intros [= <-]. eapply unite_merge_dimensions_mul; eauto.
  - apply unite_merge_dimensions_mul in H3 as [d [m ->]]. now rewrite mul_bool in B3.
Qed.

Lemma pack_mul (d m : Mono) : pack (mul d m) = mul d m.
Proof. destruct m; reflexivity. Qed.

Lemma mul_not_empty (d m : Mono) : mul d m <> DataShape [].
Proof. destruct m; discriminate. Qed.

(** A sequence of one shape is unified by the first strategy. *)
Lemma unite_singleton (u : Mono) : unite [u] = Ok (PShape (1 ** u)).
Proof.
  unfold unite. apply do_one_cons_shape.
  - apply unite_identical_singleton.
  - apply mul_bool.
Qed.

Lemma unite_or_tuple_singleton (u : Mono) :
  unite_or_tuple [u] = Ok (PShape (1 ** u)).
Proof.
  unfold unite_or_tuple. apply do_one_cons_shape.
  - apply unite_identical_singleton.
  - apply mul_bool.
Qed.

(** C7, as the code has it: when the unifier returns a shape [u] for a
    sequence, unifying the one-member sequence [[u]] returns [1 * u], a
    shape with one more leading dimension, which differs from [u]; taking
    that dimension off gives [u] back. *)
Theorem unite_of_unified_adds_dimension (S : list Mono) (u : Mono)
    (H : unite S = Ok (PShape u)) :
  unite [u] = Ok (PShape (1 ** u)) /\
  1 ** u <> u /\
  subshape0 (PShape (1 ** u)) = Ok u.
Proof.
  split; [apply unite_singleton|]. split; [apply mul_neq|].
  apply unite_shape_mul in H as [d [m ->]].
  simpl. unfold mul_int. rewrite mul_subshape0; auto.
  - now rewrite pack_mul.
  - apply mul_not_empty.
Qed.

Lemma unite_of_unified_adds_dimension_witness :
  unite [int64; int64] = Ok (PShape (2 ** int64)) /\
  unite [2 ** int64] = Ok (PShape (1 ** 2 ** int64)).
Proof.
  assert (H : unite [int64; int64] = Ok (PShape (2 ** int64))) by reflexivity.
  split; [exact H|].
  exact (proj1 (unite_of_unified_adds_dimension [int64; int64] (2 ** int64) H)).
Defined.

(** C7 as stated fails: [unify([int64, int64])] is [2 * int64], and
    unifying the one-member sequence of that shape gives [1 * 2 * int64]. *)
Lemma unite_of_unified_counterexample :
  unite [int64; int64] = Ok (PShape (DataShape [Fixed 2; int64])) /\
  unite [DataShape [Fixed 2; int64]]
    = Ok (PShape (DataShape [Fixed 1; Fixed 2; int64])) /\
  Mono_eqb (DataShape [Fixed 1; Fixed 2; int64]) (DataShape [Fixed 2; int64]) = false /\
  ~ (forall S u, S <> [] -> unite S = Ok (PShape u) -> unite [u] = Ok (PShape u)).
Proof.
  repeat split; try reflexivity.
  intros H. specialize (H [int64; int64] (2 ** int64)).
  assert (H' : unite [2 ** int64] = Ok (PShape (2 ** int64)))
    by (apply H; [discriminate|reflexivity]).
  discriminate H'.
Qed.

(** With [Tuple] as the last resort the result is always a shape, and
    unifying it again still adds a dimension. *)
Lemma unite_or_tuple_of_unified (S : list Mono) (u : Mono) :
  unite_or_tuple S = Ok (PShape u) ->
  Mono_bool u = true ->
  unite_or_tuple [u] = Ok (PShape (1 ** u)) /\
  1 ** u <> u /\
  subshape0 (PShape (1 ** u)) = Ok (pack u).
Proof.
  intros _ Hu. split; [apply unite_or_tuple_singleton|]. split; [apply mul_neq|].
  simpl. unfold mul_int. apply mul_subshape0; auto.
  now apply Mono_bool_pack.
Qed.

(* ================================================================== *)
(** * Base unification *)

Section Dict_facts.
Context {K V : Type} (eqb : K -> K -> bool).
Hypothesis eqb_eq : forall a b, eqb a b = true <-> a = b.

Lemma dict_get_set (d : list (K * V)) (k k' : K) (v : V) :
  dict_get eqb (dict_set eqb d k v) k'
  = if eqb k' k then Some v else dict_get eqb d k'.
Proof.
  induction d as [|[k1 v1] d IH]; simpl.
  - reflexivity.
  - destruct (eqb k k1) eqn:H1; simpl.
    + apply eqb_eq in H1. subst k1. now destruct (eqb k' k).
    + rewrite IH. destruct (eqb k' k1) eqn:H2; auto.
      destruct (eqb k' k) eqn:H3; auto.
      apply eqb_eq in H2, H3. subst. 
      assert (eqb k1 k1 = true) by now apply eqb_eq. congruence.
Qed.
End Dict_facts.

Section Groupby_facts.
Context {K A : Type} (eqb : K -> K -> bool) (f : A -> K).
Hypothesis eqb_eq : forall a b, eqb a b = true <-> a = b.

Let step (d : list (K * list A)) (x : A) : list (K * list A) :=
  match dict_get eqb d (f x) with
  | Some l => dict_set eqb d (f x) (l ++ [x])
  | None => dict_set eqb d (f x) [x]
  end.

Lemma groupby_fold_get (l : list A) (d : list (K * list A)) (k : K) :
  dict_get eqb (fold_left step l d) k
  = match dict_get eqb d k, filter (fun x => eqb k (f x)) l with
    | Some xs, ys => Some (xs ++ ys)
    | None, [] => None
    | None, ys => Some ys
    end.
Proof.
  revert d. induction l as [|x l IH]; intros d; simpl.
  - destruct (dict_get eqb d k); auto. now rewrite app_nil_r.
  - rewrite IH. unfold step.
    destruct (eqb k (f x)) eqn:Hk.
    + apply eqb_eq in Hk. subst k.
      destruct (dict_get eqb d (f x)) as [xs|] eqn:Hd;
        rewrite (dict_get_set eqb eqb_eq);
        (replace (eqb (f x) (f x)) with true by (symmetry; now apply eqb_eq)).
      * now rewrite <- app_assoc.
      * reflexivity.
    + destruct (dict_get eqb d (f x)) as [xs|] eqn:Hd;
        rewrite (dict_get_set eqb eqb_eq), Hk; reflexivity.
Qed.

(** The group of a key holds the members with that key, in order; a key
    without members is absent. *)
Lemma groupby_get (l : list A) (k : K) :
  dict_get eqb (groupby eqb f l) k
  = match filter (fun x => eqb k (f x)) l with
    | [] => None
    | ys => Some ys
    end.
Proof. unfold groupby. exact (groupby_fold_get l [] k). Qed.
End Groupby_facts.

Lemma bool_eqb_eq (a b : bool) : Bool.eqb a b = true <-> a = b.
Proof. destruct a, b; simpl; split; congruence. Qed.

(** [unite_base] with the two groups written as filters. *)
Lemma unite_base_eq (dshapes : list Mono) :
  unite_base dshapes =
    let ds := map unpack dshapes in
    base <- lowest_common_dshape (filter (fun x => negb (isnull x)) ds) ;;
    match base with
    | Some b =>
        if Mono_bool b
        then Ok (Some (len ds ** (if existsb isnull ds then Option b else b)))
        else Ok None
    | None => Ok None
    end.
Proof.
  unfold unite_base, dict_get_default. cbv zeta.
  rewrite !(groupby_get Bool.eqb isnull bool_eqb_eq).
  set (ds := map unpack dshapes).
  rewrite (filter_ext (fun x => Bool.eqb false (isnull x)) (fun x => negb (isnull x)))
    by (intros x; now destruct (isnull x)).
  rewrite (filter_ext (fun x => Bool.eqb true (isnull x)) isnull)
    by (intros x; now destruct (isnull x)).
  assert (Hnull : match filter isnull ds with [] => false | _ => true end
                  = existsb isnull ds).
  { induction ds as [|x xs IH]; simpl; auto. destruct (isnull x); simpl; auto. }
  replace (match match filter (fun x => negb (isnull x)) ds with
                 | [] => None | ys => Some ys end with
           | Some v => v | None => [] end)
    with (filter (fun x => negb (isnull x)) ds)
    by now destruct (filter (fun x => negb (isnull x)) ds).
  apply bind_ext. intros [b|]; simpl; auto.
  destruct (Mono_bool b); auto.
  rewrite <- Hnull. now destruct (filter isnull ds).
Qed.

Lemma isnull_unpack (x : Mono) : isnull x = true -> isnull (unpack x) = true.
Proof.
  unfold isnull. rewrite orb_true_iff, !Mono_eqb_eq. intros [->| ->]; reflexivity.
Qed.

(** With no member that is not null, [lowest_common_dshape] is handed an
    empty list and [set.intersection] is called without an argument. *)
Lemma unite_base_all_null (dshapes : list Mono) :
  Forall (fun x => isnull x = true) dshapes ->
  unite_base dshapes = Raise TypeError.
Proof.
  intros H. rewrite unite_base_eq. cbv zeta.
  replace (filter (fun x => negb (isnull x)) (map unpack dshapes)) with (@nil Mono).
  - reflexivity.
  - induction H as [|x xs Hx _ IH]; simpl; auto.
    now rewrite (isnull_unpack x Hx).
Qed.

(** C3: for a sequence all of whose members are null the claim promises
    the answer "does not apply" ([None]) without an exception; the code
    raises [TypeError], because [set.intersection] is applied to the empty
    list of reachable sets. *)
Theorem unite_base_all_null_raises :
  lowest_common_dshape [] = Raise TypeError /\
  unite_base [null] = Raise TypeError /\
  unite_base [null; null] = Raise TypeError /\
  unite_base [null; DataShape [null]; null] = Raise TypeError /\
  unite_base [null; null] <> Ok None.
Proof. repeat split; try reflexivity. discriminate. Qed.

(** C2: the three examples of the claim hold, and so does the wrapping in
    [Option]; but for the kinds that no edge mentions ([complex128] and
    [time_]) the reachable set is the kind itself, a common target exists,
    and the code raises [ValueError] when it looks the kind up in the
    topological order. *)
Theorem unite_base_unlisted_kind_raises :
  unite_base [int32; int64; real] = Ok (Some (3 ** real)) /\
  unite_base [int32; int64] = Ok (Some (2 ** int64)) /\
  unite_base [int64; int64; null] = Ok (Some (3 ** Option int64)) /\
  unite [int32; int64; real] = Ok (PShape (3 ** real)) /\
  unite [int32; int64] = Ok (PShape (2 ** int64)) /\
  unite [int64; int64; null] = Ok (PShape (3 ** Option int64)) /\
  descendents edges complex128 = Ok [complex128] /\
  descendents edges time_ = Ok [time_] /\
  unite_base [complex128; complex128] = Raise ValueError /\
  unite_base [complex128; null] = Raise ValueError /\
  unite_base [time_; null] = Raise ValueError /\
  unite [complex128; null] = Raise ValueError.
Proof. repeat split; reflexivity. Qed.

(* ================================================================== *)
(** * Merging dimensions *)

Lemma unite_identical_None (l : list Mono) :
  unite_identical l = Ok None <->
  l = [] \/ exists x y, In x l /\ In y l /\ x <> y.
Proof.
  split.
  - intros H. destruct l as [|x xs]; [now left|right].
    destruct (forallb (Mono_eqb x) xs) eqn:Hall.
    + exfalso. rewrite forallb_forall in Hall.
      assert (Hs : unite_identical (x :: xs) = Ok (Some (len (x :: xs) ** x))).
      { apply unite_identical_Some. exists x, xs. repeat split.
        apply Forall_forall. intros a Ha. symmetry. apply Mono_eqb_eq. 
        rewrite <- (Hall a Ha).
        destruct (Mono_eqb a x) eqn:E1, (Mono_eqb x a) eqn:E2; auto.
        - apply Mono_eqb_eq in E1. subst. now rewrite Mono_eqb_refl in E2.
        - apply Mono_eqb_eq in E2. subst. now rewrite Mono_eqb_refl in E1. }
      congruence.
    + assert (exists y, In y xs /\ Mono_eqb x y = false) as [y [Hy Hxy]].
      { clear H. induction xs as [|z zs IH]; simpl in Hall; [discriminate|].
        destruct (Mono_eqb x z) eqn:E.
        - destruct (IH Hall) as [y [Hy Hxy]]. exists y. split; [now right|auto].
        - exists z. split; [now left|auto]. }
      exists x, y. repeat split; [now left|now right|now apply Mono_eqb_neq].
  - intros [->|[x [y [Hx [Hy Hxy]]]]]; [reflexivity|].
    destruct (unite_identical_total l) as [[r|] Hr]; auto.
    apply unite_identical_Some in Hr as [a [xs [-> [Hall _]]]].
    rewrite Forall_forall in Hall.
    exfalso. apply Hxy.
    destruct Hx as [<-|Hx], Hy as [<-|Hy]; auto.
    + symmetry. now apply Hall.
    + rewrite <- (Hall x Hx). now apply Hall.
Qed.

Lemma fold_left_inter_nil (sets : list (list Mono)) :
  fold_left set_inter sets [] = [].
Proof. induction sets; simpl; auto. Qed.

Lemma fold_left_inter_singletons (x0 : Mono) (rest : list Mono) :
  fold_left set_inter (map (fun x => [x]) rest) [x0]
  = if forallb (Mono_eqb x0) rest then [x0] else [].
Proof.
  induction rest as [|y ys IH]; simpl; auto.
  unfold mem. simpl. rewrite orb_false_r.
  destruct (Mono_eqb x0 y); simpl; auto.
  apply fold_left_inter_nil.
Qed.

(** A shape that is not a key of the graph reaches only itself. *)
Lemma descendents_not_key (x : Mono) :
  dict_get Mono_eqb edges x = None -> descendents edges x = Ok [x].
Proof.
  intros H. unfold descendents, get_set. rewrite H. reflexivity.
Qed.

Lemma edges_no_DataShape (ps : list Mono) :
  dict_get Mono_eqb edges (DataShape ps) = None.
Proof. reflexivity. Qed.

Lemma isnull_dimensioned (d p : Mono) (ps : list Mono) :
  isnull (DataShape (d :: p :: ps)) = false.
Proof.
  unfold isnull, null. apply orb_false_iff.
  split; apply Mono_eqb_neq; discriminate.
Qed.

(** Shapes with a leading dimension that are not all the same have no
    common target: base unification does not apply. *)
Lemma unite_base_dimensioned (dshapes : list Mono) :
  Forall (fun ds => exists d p ps, ds = DataShape (d :: p :: ps)) dshapes ->
  (exists x y, In x dshapes /\ In y dshapes /\ x <> y) ->
  unite_base dshapes = Ok None.
Proof.
  intros Hall Hdiff. rewrite unite_base_eq. cbv zeta.
  assert (Hun : map unpack dshapes = dshapes).
  { clear Hdiff. induction Hall as [|x xs [d [p [ps ->]]] _ IH]; simpl; auto.
    now rewrite IH. }
  rewrite Hun.
  assert (Hfil : filter (fun x => negb (isnull x)) dshapes = dshapes).
  { clear Hdiff Hun. induction Hall as [|x xs [d [p [ps ->]]] _ IH]; simpl; auto.
    now rewrite isnull_dimensioned, IH. }
  rewrite Hfil.
  unfold lowest_common_dshape, lowest_common_dshape_in.
  assert (Hdesc : mapM (descendents edges) dshapes = Ok (map (fun x => [x]) dshapes)).
  { clear Hdiff Hun Hfil.
    induction Hall as [|x xs [d [p [ps ->]]] _ IH]; [reflexivity|].
    cbn [mapM map].
    rewrite descendents_not_key by apply edges_no_DataShape.
    rewrite IH. reflexivity. }
  rewrite Hdesc. simpl.
  destruct dshapes as [|x0 rest]; [now destruct Hdiff as [? [? [[] _]]]|].
  simpl. rewrite fold_left_inter_singletons.
  destruct (forallb (Mono_eqb x0) rest) eqn:Hsame; [|reflexivity].
  exfalso. rewrite forallb_forall in Hsame.
  assert (Heq : forall a, In a (x0 :: rest) -> a = x0).
  { intros a [<-|Ha]; auto. symmetry. apply Mono_eqb_eq. now apply Hsame. }
  destruct Hdiff as [x [y [Hx [Hy Hxy]]]].
  apply Hxy. now rewrite (Heq x Hx), (Heq y Hy).
Qed.

Lemma subshapes_of_mul (dims : list Mono) (p : Mono) (ps : list Mono) :
  Forall (fun d => isdimension d = true) dims ->
  mapM Mono_subshape0 (map (fun d => mul d (DataShape (p :: ps))) dims)
  = Ok (map (fun _ => DataShape (p :: ps)) dims).
Proof.
  induction 1 as [|d ds Hd _ IH]; [reflexivity|].
  cbn [mapM map]. rewrite IH.
  cbn [mul Mono_subshape0]. rewrite Hd. reflexivity.
Qed.

Section Merge.
Variables (dims : list Mono) (p : Mono) (ps : list Mono).
Hypothesis dims_nonempty : dims <> [].
Hypothesis dims_dimensions : Forall (fun d => isdimension d = true) dims.

(** The common element shape and the shapes [d_i * e]. *)
Let e : Mono := DataShape (p :: ps).
Let dshapes : list Mono := map (fun d => mul d e) dims.

Lemma merge_all_dimensioned : forallb is_dimensioned dshapes = true.
Proof.
  unfold dshapes. apply forallb_forall. intros x Hx.
  apply in_map_iff in Hx as [d [<- Hd]]. simpl.
  rewrite Forall_forall in dims_dimensions. auto.
Qed.

Lemma merge_items : map item0 dshapes = dims.
Proof.
  unfold dshapes. rewrite map_map. simpl. apply map_id.
Qed.

Lemma merge_subshapes :
  mapM Mono_subshape0 dshapes = Ok (map (fun _ => e) dims).
Proof. now apply subshapes_of_mul. Qed.

Lemma merge_elements_identical :
  unite_identical (map (fun _ => e) dims) = Ok (Some (len dims ** e)).
Proof.
  destruct dims as [|d ds]; [congruence|].
  apply unite_identical_Some. exists e, (map (fun _ => e) ds).
  repeat split.
  - apply Forall_forall. intros x Hx. apply in_map_iff in Hx as [? [<- _]]. reflexivity.
  - now rewrite len_map.
Qed.

Lemma unite_merge_dimensions_eq :
  unite_merge_dimensions dshapes
  = Ok (Some (len dshapes **
              mul (if len (set_of dims) =? 1 then hd Var dims else var) e)).
Proof.
  unfold unite_merge_dimensions, unite_merge_dimensions_with.
  rewrite merge_all_dimensioned, merge_subshapes. simpl bind.
  rewrite merge_elements_identical. simpl bind.
  rewrite merge_items.
  destruct (len (set_of dims) =? 1); auto.
  destruct dims; [congruence|reflexivity].
Qed.

Lemma mul_inj_dim (d1 d2 : Mono) : mul d1 e = mul d2 e -> d1 = d2.
Proof. unfold e. simpl. congruence. Qed.

(** C4, as the code has it: for shapes [d_i * e] over one element shape
    [e] (the element shapes are unified by identical-unification only),
    the dimension merge, and the full unifier with it, return
    [N * (k * e)] when every [d_i] is [k] and [N * (var * e)] when two
    of the [d_i] differ. *)
Theorem unite_merge_dimensions_identical_elements :
  (forall k, Forall (eq k) dims ->
     unite_merge_dimensions dshapes = Ok (Some (len dshapes ** mul k e)) /\
     unite dshapes = Ok (PShape (len dshapes ** mul k e))) /\
  ((exists d1 d2, In d1 dims /\ In d2 dims /\ d1 <> d2) ->
     unite_merge_dimensions dshapes = Ok (Some (len dshapes ** mul var e)) /\
     unite dshapes = Ok (PShape (len dshapes ** mul var e))).
Proof.
  split.
  - intros k Hk.
    assert (Hd : exists ds, dims = k :: ds /\ Forall (eq k) ds).
    { destruct dims as [|d ds]; [congruence|].
      inversion Hk; subst. eauto. }
    destruct Hd as [ds [Hdims Hds]].
    assert (H1 : len (set_of dims) = 1) by (apply set_of_single; eauto).
    split.
    + rewrite unite_merge_dimensions_eq, H1. simpl. now rewrite Hdims.
    + unfold unite. apply do_one_cons_shape; [|apply mul_bool].
      apply unite_identical_Some.
      exists (mul k e), (map (fun d => mul d e) ds).
      unfold dshapes. rewrite Hdims. repeat split.
      apply Forall_forall. intros x Hx. apply in_map_iff in Hx as [d [<- Hd]].
      rewrite Forall_forall in Hds. now rewrite <- (Hds d Hd).
  - intros [d1 [d2 [H1 [H2 Hneq]]]].
    assert (Hlen : (len (set_of dims) =? 1) = false).
    { apply Z.eqb_neq. intros Hs. apply set_of_single in Hs as [x [xs [Hd Hall]]].
      rewrite Forall_forall in Hall. apply Hneq.
      rewrite Hd in H1, H2.
      assert (forall a, In a (x :: xs) -> a = x)
        by (intros a [<-|Ha]; auto; symmetry; auto).
      now rewrite (H d1 H1), (H d2 H2). }
    assert (Hm : unite_merge_dimensions dshapes
                 = Ok (Some (len dshapes ** mul var e)))
      by now rewrite unite_merge_dimensions_eq, Hlen.
    split; [exact Hm|].
    assert (Hdiff : exists x y, In x dshapes /\ In y dshapes /\ x <> y).
    { exists (mul d1 e), (mul d2 e). unfold dshapes.
      repeat split; try (apply in_map_iff; eauto).
      intros Heq. apply Hneq. now apply mul_inj_dim. }
    unfold unite.
    rewrite do_one_cons_none
      by (apply unite_identical_None; right; exact Hdiff).
    rewrite do_one_cons_none.
    + apply do_one_cons_shape; [exact Hm|apply mul_bool].
    + apply unite_base_dimensioned; auto.
      apply Forall_forall. intros x Hx. unfold dshapes in Hx.
      apply in_map_iff in Hx as [d [<- _]]. unfold e. simpl. eauto.
Qed.
End Merge.

Lemma unite_merge_dimensions_identical_elements_witness :
  unite [10 ** string_; 20 ** string_] = Ok (PShape (2 ** mul var string_)) /\
  unite [10 ** string_; 10 ** string_] = Ok (PShape (2 ** 10 ** string_)) /\
  unite_merge_dimensions [10 ** string_; 20 ** string_]
    = Ok (Some (2 ** mul var string_)) /\
  unite_merge_dimensions [10 ** string_; 10 ** string_]
    = Ok (Some (2 ** 10 ** string_)).
Proof.
  pose proof (unite_merge_dimensions_identical_elements
                [Fixed 10; Fixed 20] string_ []
                ltac:(discriminate)
                ltac:(repeat constructor)) as [_ Hvar].
  pose proof (unite_merge_dimensions_identical_elements
                [Fixed 10; Fixed 10] string_ []
                ltac:(discriminate)
                ltac:(repeat constructor)) as [Hfix _].
  destruct Hvar as [Hv1 Hv2].
  { exists (Fixed 10), (Fixed 20). repeat split; simpl; auto. discriminate. }
  destruct (Hfix (Fixed 10)) as [Hf1 Hf2].
  { repeat constructor. }
  repeat split; assumption.
Defined.

(** C4 as stated fails: the elements [int32] and [int64] are unified by
    the full unifier (to [2 * int64]), yet the dimension merge, which
    unifies elements by identical-unification only, does not apply, and
    the unifier hands back its input list. *)
Lemma unite_merge_dimensions_counterexample :
  unite [int32; int64] = Ok (PShape (2 ** int64)) /\
  unite_identical [DataShape [int32]; DataShape [int64]] = Ok None /\
  unite_merge_dimensions [10 ** int32; 20 ** int64] = Ok None /\
  unite [10 ** int32; 20 ** int64] = Ok (PList [10 ** int32; 20 ** int64]) /\
  unite [10 ** int32; 20 ** int64] <> Ok (PShape (2 ** mul var int64)).
Proof. repeat split; try reflexivity. discriminate. Qed.

(* ================================================================== *)
(** * The discoverer on sequences *)

Lemma unite_merge_dimensions_no_AttributeError (ts : list Mono) :
  unite_merge_dimensions ts <> Raise AttributeError.
Proof.
  unfold unite_merge_dimensions, unite_merge_dimensions_with.
  destruct (forallb is_dimensioned ts) eqn:Hall; [|discriminate].
  assert (Hsub : mapM Mono_subshape0 ts <> Raise AttributeError).
  { induction ts as [|x xs IH]; simpl; [discriminate|].
    simpl in Hall. apply andb_true_iff in Hall as [Hx Hxs].
    destruct x as [| | | | | |[|d [|q qs]]]; simpl in Hx; try discriminate;
      simpl; try discriminate.
    rewrite Hx. simpl.
    destruct (mapM Mono_subshape0 xs) eqn:E; simpl; [discriminate|].
    intros [= ->]. now apply IH. }
  destruct (mapM Mono_subshape0 ts) as [subs|e] eqn:E; simpl; [|congruence].
  destruct (unite_identical subs) as [[b|]|e] eqn:Hb; simpl; try discriminate.
  - destruct (Mono_bool b); [|discriminate].
    apply unite_identical_mul in Hb as [d [m ->]].
    destruct m as [| | | | | |[|q qs]]; simpl;
      try (destruct (isdimension d); simpl; [|discriminate]);
      try discriminate;
      destruct (_ =? 1); try discriminate; destruct (map item0 ts); discriminate.
  - destruct (unite_identical_total subs) as [r Hr]. congruence.
Qed.

Lemma unite_or_tuple_no_AttributeError (ts : list Mono) :
  unite_or_tuple ts <> Raise AttributeError.
Proof.
  unfold unite_or_tuple. simpl.
  destruct (unite_identical_total ts) as [r1 ->]. simpl.
  pose proof (unite_merge_dimensions_no_AttributeError ts) as Hm.
  destruct r1 as [m1|].
  - destruct (Mono_bool m1); [discriminate|].
    destruct (unite_merge_dimensions ts) as [[m2|]|e]; simpl; try discriminate.
    + destruct (Mono_bool m2); discriminate.
    + congruence.
  - destruct (unite_merge_dimensions ts) as [[m2|]|e]; simpl; try discriminate.
    + destruct (Mono_bool m2); discriminate.
    + congruence.
Qed.

(** [unite_or_tuple], strategy by strategy. *)
Lemma unite_or_tuple_eq (ts : list Mono) :
  unite_or_tuple ts =
    match unite_identical ts with
    | Ok (Some t) => Ok (PShape t)
    | _ =>
        match unite_merge_dimensions ts with
        | Ok (Some t) => Ok (PShape t)
        | Ok None => Ok (PShape (Tuple ts))
        | Raise e => Raise e
        end
    end.
Proof.
  unfold unite_or_tuple. simpl.
  destruct (unite_identical_total ts) as [[m1|] H1]; rewrite H1; simpl.
  - apply unite_identical_mul in H1 as [d [m ->]]. now rewrite mul_bool.
  - destruct (unite_merge_dimensions ts) as [[m2|]|e] eqn:H2; simpl; auto.
    apply unite_merge_dimensions_mul in H2 as [d [m ->]]. now rewrite mul_bool.
Qed.

Section Discover_sequences.
Variable dateparse : string -> result pydatetime.
Abbreviation discover := (discover dateparse).

(** C10: [discover([])] is the tuple shape without members and without
    a leading count, and nothing is raised: neither guard of the column
    paths holds, identical-unification and dimension-merge both answer
    [None] on the empty list of shapes, and [Tuple] is the last resort. *)
Theorem discover_empty_sequence :
  discover (VList []) = Ok (Tuple []) /\
  Tuple [] = MTuple [] /\
  tuples_path discover 0 (rows_of []) = Ok None /\
  records_path discover 0 (dicts_of []) = Ok None /\
  unite_identical [] = Ok None /\
  unite_merge_dimensions [] = Ok None /\
  unite_or_tuple [] = Ok (PShape (Tuple [])) /\
  (forall d m, Tuple [] <> mul d m).
Proof.
  repeat split; try reflexivity.
  intros d m. destruct m; discriminate.
Qed.

(** When neither column path answers, the sequence case is its last
    two lines. *)
Lemma discover_seq_general (seq : list value) :
  tuples_path discover (len seq) (rows_of seq) = Ok None ->
  records_path discover (len seq) (dicts_of seq) = Ok None ->
  discover (VList seq) = general_path discover seq.
Proof.
  intros H1 H2. rewrite discover_VList.
  unfold discover_seq, discover_seq_body. cbv zeta.
  now rewrite H1, H2.
Qed.

(** A member that is no sequence closes the first column path, a member
    that is no dict the second. *)
Lemma rows_of_None (seq : list value) (v : value) :
  In v seq -> as_sequence v (fun xs => xs) = None -> rows_of seq = None.
Proof.
  unfold rows_of. induction seq as [|x xs IH]; simpl; [tauto|].
  intros [->|Hin] Hv.
  - now rewrite Hv.
  - destruct (as_sequence x _); auto. now rewrite (IH Hin Hv).
Qed.

Lemma dicts_of_None (seq : list value) (v : value) :
  In v seq -> as_dict v (fun d => d) = None -> dicts_of seq = None.
Proof.
  unfold dicts_of. induction seq as [|x xs IH]; simpl; [tauto|].
  intros [->|Hin] Hv.
  - now rewrite Hv.
  - destruct (as_dict x _); auto. now rewrite (IH Hin Hv).
Qed.

(** C1, as the code has it: when no column path answers and the members
    have the shapes [types], [discover] returns what the strategies
    identical-unification, dimension-merge and [Tuple], in this order
    and without base-unification, make of [types]: [N * t] when all
    shapes are one shape [t]; the merged dimensions when that strategy
    applies; and otherwise [Tuple(types)] itself, with its [N] members
    and no leading count. *)
Theorem discover_general_fallback (seq : list value) (types : list Mono)
    (Htuples : tuples_path discover (len seq) (rows_of seq) = Ok None)
    (Hrecords : records_path discover (len seq) (dicts_of seq) = Ok None)
    (Htypes : mapM discover seq = Ok types) :
  discover (VList seq) = (r <- unite_or_tuple types ;; as_shape r) /\
  (forall t, types <> [] -> Forall (eq t) types ->
     discover (VList seq) = Ok (len seq ** t)) /\
  (forall r, unite_identical types = Ok None ->
     unite_merge_dimensions types = Ok (Some r) ->
     discover (VList seq) = Ok r) /\
  (unite_identical types = Ok None ->
   unite_merge_dimensions types = Ok None ->
   discover (VList seq) = Ok (Tuple types) /\
   List.length types = List.length seq /\
   (forall d m, Tuple types <> mul d m)).
Proof.
  assert (Hd : discover (VList seq) = (r <- unite_or_tuple types ;; as_shape r)).
  { rewrite discover_seq_general by assumption.
    unfold general_path. now rewrite Htypes. }
  assert (Hlen : len seq = len types).
  { unfold len. now rewrite (mapM_Ok_length _ _ _ Htypes). }
  split; [exact Hd|]. rewrite Hd, unite_or_tuple_eq.
  split; [|split].
  - intros t Hne Hall.
    assert (Hi : unite_identical types = Ok (Some (len types ** t))).
    { apply unite_identical_Some. destruct types as [|x xs]; [congruence|].
      inversion Hall; subst. eauto. }
    rewrite Hi. simpl. now rewrite Hlen.
  - intros r H1 H2. now rewrite H1, H2.
  - intros H1 H2. rewrite H1, H2. simpl.
    split; [reflexivity|]. split; [now apply mapM_Ok_length in Htypes|].
    intros d m. destruct m; discriminate.
Qed.

(** A sequence with a member that is no sequence and a member that is no
    dict goes down the last two lines. *)
Lemma discover_mixed_sequence (seq : list value) (v w : value) :
  In v seq -> as_sequence v (fun xs => xs) = None ->
  In w seq -> as_dict w (fun d => d) = None ->
  discover (VList seq) = general_path discover seq.
Proof.
  intros Hv Hvs Hw Hwd. apply discover_seq_general.
  - now rewrite (rows_of_None seq v Hv Hvs).
  - now rewrite (dicts_of_None seq w Hw Hwd).
Qed.
End Discover_sequences.

Lemma discover_general_fallback_witness :
  discover iso_dateparse (VList [VInt 1; VFloat (Finite false 25 (-1))])
    = Ok (Tuple [int64; float64]) /\
  discover iso_dateparse (VList [VInt 1; VInt 2; VInt 3]) = Ok (3 ** int64).
Proof.
  split.
  - destruct (discover_general_fallback iso_dateparse
                [VInt 1; VFloat (Finite false 25 (-1))] [int64; float64]
                eq_refl eq_refl eq_refl) as [_ [_ [_ H]]].
    apply H; reflexivity.
  - destruct (discover_general_fallback iso_dateparse
                [VInt 1; VInt 2; VInt 3] [int64; int64; int64]
                eq_refl eq_refl eq_refl) as [_ [H _]].
    apply (H int64); [discriminate|repeat constructor].
Defined.

(** C1 as stated fails.  The shapes [int64] and [float64] of the members
    of [[1, 2.5]] are unified by base-unification to [2 * float64], but
    [discover] does not try that strategy and returns the tuple shape;
    and for [[1, 1j]], where no strategy applies, the tuple shape comes
    without the leading count [2]. *)
Lemma discover_general_fallback_counterexample :
  let seq1 := [VInt 1; VFloat (Finite false 25 (-1))] in
  let seq2 := [VInt 1; VComplex (Finite false 0 0) (Finite false 1 0)] in
  mapM (discover iso_dateparse) seq1 = Ok [int64; float64] /\
  general_fallback_as_specified [int64; float64] = Ok (2 ** float64) /\
  discover iso_dateparse (VList seq1) = Ok (Tuple [int64; float64]) /\
  discover iso_dateparse (VList seq1) <> general_fallback_as_specified [int64; float64] /\
  mapM (discover iso_dateparse) seq2 = Ok [int64; complex128] /\
  general_fallback_as_specified [int64; complex128]
    = Ok (2 ** Tuple [int64; complex128]) /\
  discover iso_dateparse (VList seq2) = Ok (Tuple [int64; complex128]) /\
  discover iso_dateparse (VList seq2) <> general_fallback_as_specified [int64; complex128].
Proof. cbv zeta. repeat split; try reflexivity; discriminate. Qed.

(* ================================================================== *)
(** * Column transposition *)

Lemma dicts_of_rows_of (seq : list value) (d0 : list (string * value))
    (rest : list (list (string * value))) :
  dicts_of seq = Some (d0 :: rest) -> rows_of seq = None.
Proof.
  unfold dicts_of, rows_of.
  destruct seq as [|v vs]; simpl; [discriminate|].
  destruct v; simpl; try discriminate. reflexivity.
Qed.

(** ** Sets of keys *)

Lemma keyset_eqb_iff (a b : list string) :
  keyset_eqb a b = true <-> (forall k, In k a <-> In k b).
Proof.
  unfold keyset_eqb. rewrite andb_true_iff, !forallb_forall.
  split.
  - intros [Hab Hba] k. split; intros Hk.
    + apply Hab in Hk. apply existsb_exists in Hk as [k' [Hin E]].
      apply String.eqb_eq in E. now subst.
    + apply Hba in Hk. apply existsb_exists in Hk as [k' [Hin E]].
      apply String.eqb_eq in E. now subst.
  - intros H. split; intros k Hk; apply existsb_exists; exists k;
      (split; [now apply H|apply String.eqb_refl]).
Qed.

(** Every member of a list is equal, for [eqb], to a member of its set. *)
Lemma distinct_represents {A : Type} (eqb : A -> A -> bool) (l : list A) (x : A) :
  (forall a, eqb a a = true) ->
  In x l -> exists z, In z (distinct eqb l) /\ eqb x z = true.
Proof.
  intros Hrefl. induction l as [|y ys IH]; simpl; [tauto|].
  intros [->|Hin].
  - destruct (existsb (eqb x) (distinct eqb ys)) eqn:E.
    + apply existsb_exists in E as [z [Hz Hxz]]. eauto.
    + exists x. split; [now left|auto].
  - destruct (IH Hin) as [z [Hz Hxz]].
    destruct (existsb (eqb y) (distinct eqb ys)); eauto.
    exists z. split; [now right|auto].
Qed.

(** Dicts that make up one set of keys all have the keys of the first. *)
Lemma one_keyset_keys {V : Type} (d0 : list (string * V))
    (rest : list (list (string * V))) (d : list (string * V)) (k : string) :
  len (distinct keyset_eqb (map (@dict_keys string V) (d0 :: rest))) = 1 ->
  In d (d0 :: rest) -> In k (dict_keys d0) -> In k (dict_keys d).
Proof.
  intros Hone Hd Hk.
  assert (Hrefl : forall a, keyset_eqb a a = true)
    by (intros a; apply keyset_eqb_iff; tauto).
  set (l := map (@dict_keys string V) (d0 :: rest)) in *.
  assert (H0 : In (dict_keys d0) l) by (apply in_map; now left).
  assert (H1 : In (dict_keys d) l) by (now apply in_map).
  destruct (distinct_represents keyset_eqb l _ Hrefl H0) as [z0 [Hz0 E0]].
  destruct (distinct_represents keyset_eqb l _ Hrefl H1) as [z1 [Hz1 E1]].
  unfold len in Hone.
  destruct (distinct keyset_eqb l) as [|z [|z' zs]]; simpl in Hone; try lia.
  destruct Hz0 as [<-|[]], Hz1 as [<-|[]].
  rewrite keyset_eqb_iff in E0, E1. apply E1, E0, Hk.
Qed.

Lemma getitem_In {V : Type} (d : list (string * V)) (k : string) :
  In k (dict_keys d) -> exists v, getitem d k = Ok v.
Proof.
  intros Hk. unfold getitem.
  destruct (dict_get String.eqb d k) as [v|] eqn:E; eauto.
  exfalso. revert E Hk. clear.
  induction d as [|[k1 v1] d IH]; simpl; [tauto|].
  destruct (String.eqb k k1) eqn:Hk1; [discriminate|].
  apply String.eqb_neq in Hk1. intros E [H|H]; [congruence|auto].
Qed.

Lemma In_sorted (k : string) (l : list string) : In k (sorted l) -> In k l.
Proof.
  induction l as [|x xs IH]; simpl; auto.
  intros H.
  assert (Hins : forall a b m, In a (insert_sorted b m) -> a = b \/ In a m).
  { clear. intros a b m. induction m as [|y ys IH]; simpl.
    - intros [->|[]]. now left.
    - destruct (String.leb b y); simpl.
      + intros [->|[->|H]]; auto.
      + intros [->|H]; auto. destruct (IH H); auto. }
  destruct (Hins _ _ _ H) as [->|H']; auto.
Qed.

(** With one set of keys the columns of line 105 are read without a
    [KeyError]. *)
Lemma record_columns_total {V : Type} (d0 : list (string * V))
    (rest : list (list (string * V))) :
  len (distinct keyset_eqb (map (@dict_keys string V) (d0 :: rest))) = 1 ->
  exists columns,
    mapM (fun key => mapM (fun item => getitem item key) (d0 :: rest))
         (sorted (dict_keys d0)) = Ok columns.
Proof.
  intros Hone. apply mapM_total. intros k Hk. apply In_sorted in Hk.
  apply mapM_total. intros d Hd. apply getitem_In.
  eapply one_keyset_keys; eauto.
Qed.

(** ** Abandoning a column path *)

Lemma mapM_first_failure {A B : Type} (f : A -> result B) (pre : list A)
    (c : A) (post : list A) (r : list B) (e : exn) :
  mapM f pre = Ok r -> f c = Raise e -> mapM f (pre ++ c :: post) = Raise e.
Proof.
  revert r. induction pre as [|x xs IH]; intros r Hpre Hc; cbn [app mapM].
  - now rewrite Hc.
  - cbn [mapM] in Hpre. destruct (f x) as [y|]; [|discriminate]. cbn [bind] in *.
    destruct (mapM f xs) as [ys|] eqn:E; [|discriminate].
    now rewrite (IH ys eq_refl Hc).
Qed.

Lemma no_strategy_column_raises (disc : value -> result Mono)
    (columns : list (list value)) :
  no_strategy_column disc columns ->
  mapM (column_type disc) columns = Raise AttributeError.
Proof.
  intros (pre & column & post & types & ts & l & -> & Hpre & Hts & Hu).
  apply (mapM_first_failure _ pre column post types); auto.
  unfold column_type. now rewrite Hts, bind_Ok, Hu.
Qed.

Lemma distinct_one_nonempty {A : Type} (eqb : A -> A -> bool) (l : list A) :
  len (distinct eqb l) = 1 -> l <> [].
Proof. intros H ->. discriminate. Qed.

Lemma rows_of_dicts_of (seq : list value) (rows : list (list value)) :
  rows_of seq = Some rows -> rows <> [] -> dicts_of seq = None.
Proof.
  unfold rows_of, dicts_of.
  destruct seq as [|v vs]; cbn [map all_some].
  - intros [= <-]. congruence.
  - intros H _. destruct v; cbn in H; try discriminate; reflexivity.
Qed.

Section Discover_columns.
Variable dateparse : string -> result pydatetime.
Abbreviation discover := (discover dateparse).

(** Lines 91 to 98: rows of one length whose columns all unify. *)
Lemma discover_column_of_tuples (seq : list value) (rows : list (list value))
    (types : list Mono) :
  rows_of seq = Some rows ->
  len (distinct Z.eqb (map len rows)) = 1 ->
  mapM (column_type discover) (zip_star rows) = Ok types ->
  discover (VList seq) = (r <- unite_or_tuple types ;; times (len seq) r).
Proof.
  intros Hrows Hlen Htypes. rewrite discover_VList.
  unfold discover_seq, discover_seq_body. cbv zeta.
  rewrite Hrows. unfold tuples_path.
  apply Z.eqb_eq in Hlen. rewrite Hlen. cbv zeta. rewrite Htypes, bind_Ok.
  pose proof (unite_or_tuple_no_AttributeError types) as Hno.
  destruct (unite_or_tuple types) as [v|e] eqn:Hu.
  - destruct (unite_or_tuple_shape _ _ Hu) as [m ->]. reflexivity.
  - simpl. destruct e; try reflexivity. congruence.
Qed.

(** Lines 102 to 109: dicts with one set of keys whose columns all unify. *)
Lemma discover_column_of_records (seq : list value)
    (d0 : list (string * value)) (rest : list (list (string * value)))
    (columns : list (list value)) (types : list Mono) :
  dicts_of seq = Some (d0 :: rest) ->
  len (distinct keyset_eqb (map (@dict_keys string value) (d0 :: rest))) = 1 ->
  mapM (fun key => mapM (fun item => getitem item key) (d0 :: rest))
       (sorted (dict_keys d0)) = Ok columns ->
  mapM (column_type discover) columns = Ok types ->
  discover (VList seq)
  = Ok (len seq ** Record (combine (sorted (dict_keys d0)) types)).
Proof.
  intros Hdicts Hkeys Hcols Htypes. rewrite discover_VList.
  unfold discover_seq, discover_seq_body. cbv zeta.
  rewrite (dicts_of_rows_of _ _ _ Hdicts), Hdicts.
  change (tuples_path discover (len seq) None) with (@Ok (option Mono) None).
  rewrite bind_Ok. unfold records_path.
  apply Z.eqb_eq in Hkeys. rewrite Hkeys. cbv iota beta zeta.
  rewrite Hcols, bind_Ok, Htypes. reflexivity.
Qed.

(** Lines 99 and 100: the rows are given up when the first column without
    a shape raised [AttributeError]; the dict path does not apply to rows,
    and the last two lines decide. *)
Lemma discover_rows_abandoned (seq : list value) (rows : list (list value)) :
  rows_of seq = Some rows ->
  len (distinct Z.eqb (map len rows)) = 1 ->
  mapM (column_type discover) (zip_star rows) = Raise AttributeError ->
  discover (VList seq) = general_path discover seq.
Proof.
  intros Hrows Hlen Hcols. apply discover_seq_general.
  - rewrite Hrows. unfold tuples_path.
    apply Z.eqb_eq in Hlen. rewrite Hlen. cbv zeta. now rewrite Hcols.
  - assert (Hne : rows <> []).
    { apply distinct_one_nonempty in Hlen. now destruct rows. }
    now rewrite (rows_of_dicts_of seq rows Hrows Hne).
Qed.

(** Lines 110 and 111: the same for dicts. *)
Lemma discover_dicts_abandoned (seq : list value)
    (d0 : list (string * value)) (rest : list (list (string * value)))
    (columns : list (list value)) :
  dicts_of seq = Some (d0 :: rest) ->
  len (distinct keyset_eqb (map (@dict_keys string value) (d0 :: rest))) = 1 ->
  mapM (fun key => mapM (fun item => getitem item key) (d0 :: rest))
       (sorted (dict_keys d0)) = Ok columns ->
  mapM (column_type discover) columns = Raise AttributeError ->
  discover (VList seq) = general_path discover seq.
Proof.
  intros Hdicts Hkeys Hcolumns Hcols. apply discover_seq_general.
  - now rewrite (dicts_of_rows_of _ _ _ Hdicts).
  - rewrite Hdicts. unfold records_path.
    apply Z.eqb_eq in Hkeys. rewrite Hkeys. cbv iota beta zeta.
    now rewrite Hcolumns, bind_Ok, Hcols.
Qed.

(** C6, as the code has it.  For rows of one length whose columns all
    unify to shapes [types], [discover] returns [N] times what
    identical-unification, dimension-merge and [Tuple], in this order,
    make of [types]: [N * Tuple(types)] only when the first two do not
    apply.  For dicts with one set of keys whose columns all unify,
    [discover] returns [N * Record] of the column shapes under the
    keys in ascending order.  On either path, when the first column
    that yields no shape is one whose shapes no strategy unifies, the
    path is abandoned and [discover] returns what the last two lines
    return for the sequence.  The two examples of the claim hold (for a
    date-time parser that rejects "a" and "b"). *)
Theorem discover_column_transposition
    (Ha : exists e, dateparse "a" = Raise e)
    (Hb : exists e, dateparse "b" = Raise e) :
  (forall seq rows types,
     rows_of seq = Some rows ->
     len (distinct Z.eqb (map len rows)) = 1 ->
     mapM (column_type discover) (zip_star rows) = Ok types ->
     discover (VList seq) = (r <- unite_or_tuple types ;; times (len seq) r) /\
     (unite_identical types = Ok None ->
      unite_merge_dimensions types = Ok None ->
      discover (VList seq) = Ok (len seq ** Tuple types))) /\
  (forall seq d0 rest,
     dicts_of seq = Some (d0 :: rest) ->
     len (distinct keyset_eqb (map (@dict_keys string value) (d0 :: rest))) = 1 ->
     exists columns,
       mapM (fun key => mapM (fun item => getitem item key) (d0 :: rest))
            (sorted (dict_keys d0)) = Ok columns /\
       forall types,
         mapM (column_type discover) columns = Ok types ->
         discover (VList seq)
         = Ok (len seq ** Record (combine (sorted (dict_keys d0)) types))) /\
  (forall seq rows,
     rows_of seq = Some rows ->
     len (distinct Z.eqb (map len rows)) = 1 ->
     no_strategy_column discover (zip_star rows) ->
     discover (VList seq) = general_path discover seq) /\
  (forall seq d0 rest columns,
     dicts_of seq = Some (d0 :: rest) ->
     len (distinct keyset_eqb (map (@dict_keys string value) (d0 :: rest))) = 1 ->
     mapM (fun key => mapM (fun item => getitem item key) (d0 :: rest))
          (sorted (dict_keys d0)) = Ok columns ->
     no_strategy_column discover columns ->
     discover (VList seq) = general_path discover seq) /\
  discover (VList [VTuple [VInt 1; VStr "a"]; VTuple [VInt 2; VStr "b"]])
    = Ok (2 ** Tuple [int64; string_]) /\
  discover (VList [VDict [("x", VInt 1); ("y", VStr "a")];
                   VDict [("x", VInt 2); ("y", VStr "b")]])
    = Ok (2 ** Record [("x", int64); ("y", string_)]).
Proof.
  assert (Hsa : discover (VStr "a") = Ok string_).
  { destruct Ha as [e He]. rewrite discover_str_chain by discriminate.
    change (py_int "a") with (@Raise Z ValueError).
    change (py_float "a") with (@Raise pyfloat ValueError).
    change (bools_getitem "a") with (@Raise bool KeyError).
    cbv iota. now rewrite He. }
  assert (Hsb : discover (VStr "b") = Ok string_).
  { destruct Hb as [e He]. rewrite discover_str_chain by discriminate.
    change (py_int "b") with (@Raise Z ValueError).
    change (py_float "b") with (@Raise pyfloat ValueError).
    change (bools_getitem "b") with (@Raise bool KeyError).
    cbv iota. now rewrite He. }
  assert (Hcols : mapM (column_type discover)
                    [[VInt 1; VInt 2]; [VStr "a"; VStr "b"]]
                  = Ok [DataShape [int64]; DataShape [string_]]).
  { unfold column_type. cbn [mapM]. rewrite Hsa, Hsb. reflexivity. }
  split; [|split; [|split; [|split; [|split]]]].
  - intros seq rows types Hrows Hlen Htypes.
    pose proof (discover_column_of_tuples seq rows types Hrows Hlen Htypes) as Hd.
    split; [exact Hd|].
    intros H1 H2. rewrite Hd, unite_or_tuple_eq, H1, H2. reflexivity.
  - intros seq d0 rest Hdicts Hone.
    destruct (record_columns_total d0 rest Hone) as [columns Hcolumns].
    exists columns. split; [exact Hcolumns|].
    intros types Htypes.
    exact (discover_column_of_records seq d0 rest columns types
             Hdicts Hone Hcolumns Htypes).
  - intros seq rows Hrows Hlen Hno.
    apply (discover_rows_abandoned seq rows Hrows Hlen).
    now apply no_strategy_column_raises.
  - intros seq d0 rest columns Hdicts Hone Hcolumns Hno.
    apply (discover_dicts_abandoned seq d0 rest columns Hdicts Hone Hcolumns).
    now apply no_strategy_column_raises.
  - rewrite (discover_column_of_tuples _
               [[VInt 1; VStr "a"]; [VInt 2; VStr "b"]]
               [DataShape [int64]; DataShape [string_]]);
      try reflexivity.
    exact Hcols.
  - rewrite (discover_column_of_records _
               [("x", VInt 1); ("y", VStr "a")]
               [[("x", VInt 2); ("y", VStr "b")]]
               [[VInt 1; VInt 2]; [VStr "a"; VStr "b"]]
               [DataShape [int64]; DataShape [string_]]);
      try reflexivity.
    exact Hcols.
Qed.
End Discover_columns.

Lemma discover_column_transposition_witness :
  discover iso_dateparse
    (VList [VTuple [VInt 1; VStr "a"]; VTuple [VInt 2; VStr "b"]])
    = Ok (2 ** Tuple [int64; string_]) /\
  discover iso_dateparse
    (VList [VDict [("x", VInt 1); ("y", VStr "a")];
            VDict [("x", VInt 2); ("y", VStr "b")]])
    = Ok (2 ** Record [("x", int64); ("y", string_)]) /\
  discover iso_dateparse
    (VList [VTuple [VInt 1]; VTuple [VComplex (Finite false 0 0) (Finite false 1 0)]])
    = general_path (discover iso_dateparse)
        [VTuple [VInt 1]; VTuple [VComplex (Finite false 0 0) (Finite false 1 0)]] /\
  discover iso_dateparse
    (VList [VDict [("x", VInt 1)];
            VDict [("x", VComplex (Finite false 0 0) (Finite false 1 0))]])
    = general_path (discover iso_dateparse)
        [VDict [("x", VInt 1)];
         VDict [("x", VComplex (Finite false 0 0) (Finite false 1 0))]].
Proof.
  destruct (discover_column_transposition iso_dateparse
              (ex_intro _ ValueError eq_refl) (ex_intro _ ValueError eq_refl))
    as [_ [_ [Hrows [Hdicts [H1 H2]]]]].
  assert (Hno : no_strategy_column (discover iso_dateparse)
                  [[VInt 1; VComplex (Finite false 0 0) (Finite false 1 0)]]).
  { exists [], [VInt 1; VComplex (Finite false 0 0) (Finite false 1 0)], [],
           [], [int64; complex128], [int64; complex128].
    repeat split; reflexivity. }
  split; [exact H1|]. split; [exact H2|]. split.
  - apply (Hrows _ [[VInt 1]; [VComplex (Finite false 0 0) (Finite false 1 0)]]).
    + reflexivity.
    + reflexivity.
    + exact Hno.
  - apply (Hdicts _ [("x", VInt 1)]
             [[("x", VComplex (Finite false 0 0) (Finite false 1 0))]]
             [[VInt 1; VComplex (Finite false 0 0) (Finite false 1 0)]]).
    + reflexivity.
    + reflexivity.
    + reflexivity.
    + exact Hno.
Defined.

(** C6 as stated fails: the columns of [[(1, 2), (3, 4)]] both have the
    shape [int64], identical-unification applies to them, and the result
    is [2 * 2 * int64], not [2 * Tuple(int64, int64)]; and the dicts of
    [[{"x": 1}, {"x": 1j}]] have one set of keys, but their column does
    not unify, and the result is a tuple of two records, not a record. *)
Lemma discover_column_transposition_counterexample :
  let seq1 := [VTuple [VInt 1; VInt 2]; VTuple [VInt 3; VInt 4]] in
  let seq2 := [VDict [("x", VInt 1)];
               VDict [("x", VComplex (Finite false 0 0) (Finite false 1 0))]] in
  discover iso_dateparse (VList seq1) = Ok (DataShape [Fixed 2; Fixed 2; int64]) /\
  discover iso_dateparse (VList seq1) <> Ok (2 ** Tuple [int64; int64]) /\
  discover iso_dateparse (VList seq2)
    = Ok (Tuple [Record [("x", int64)]; Record [("x", complex128)]]) /\
  (forall fs, discover iso_dateparse (VList seq2) <> Ok (2 ** Record fs)).
Proof.
  cbv zeta. repeat split; try reflexivity; try discriminate.
Qed.

(* ================================================================== *)
(** * The order of record fields *)

Lemma ascii_compare_refl (c : ascii) : Ascii.compare c c = Eq.
Proof. unfold Ascii.compare. apply N.compare_refl. Qed.

Lemma string_compare_trans (a b c : string) :
  String.compare a b <> Gt -> String.compare b c <> Gt -> String.compare a c <> Gt.
Proof.
  revert b c. induction a as [|x a IH]; intros [|y b] [|z c]; simpl;
    try congruence.
  destruct (Ascii.compare x y) eqn:Hxy; try congruence;
    destruct (Ascii.compare y z) eqn:Hyz; try congruence.
  - apply Ascii.compare_eq_iff in Hxy, Hyz. subst.
    rewrite ascii_compare_refl. apply IH.
  - apply Ascii.compare_eq_iff in Hxy. subst. rewrite Hyz. congruence.
  - apply Ascii.compare_eq_iff in Hyz. subst. rewrite Hxy. congruence.
  - unfold Ascii.compare in *. rewrite N.compare_lt_iff in Hxy, Hyz.
    assert (H : (N_of_ascii x ?= N_of_ascii z)%N = Lt)
      by (apply N.compare_lt_iff; lia).
    rewrite H. congruence.
Qed.

Lemma key_le_trans (a b c : string) : key_le a b -> key_le b c -> key_le a c.
Proof.
  unfold key_le, String.leb. intros H1 H2.
  pose proof (string_compare_trans a b c) as H.
  destruct (String.compare a b); try discriminate;
    destruct (String.compare b c); try discriminate;
    destruct (String.compare a c); auto; exfalso; apply H; congruence.
Qed.

Lemma key_le_total (a b : string) : key_le a b \/ key_le b a.
Proof. apply String.leb_total. Qed.

Lemma key_le_antisym (a b : string) : key_le a b -> key_le b a -> a = b.
Proof. apply String.leb_antisym. Qed.

Lemma insert_sorted_perm (k : string) (l : list string) :
  Permutation (k :: l) (insert_sorted k l).
Proof.
  induction l as [|x xs IH]; simpl; auto.
  destruct (String.leb k x); auto.
  rewrite perm_swap. now constructor.
Qed.

Lemma sorted_perm (l : list string) : Permutation l (sorted l).
Proof.
  induction l as [|x xs IH]; simpl; auto.
  rewrite <- insert_sorted_perm. now constructor.
Qed.

Lemma insert_sorted_Sorted (k : string) (l : list string) :
  Sorted key_le l -> Sorted key_le (insert_sorted k l).
Proof.
  induction 1 as [|x xs Hs IH Hhd]; simpl.
  - repeat constructor.
  - destruct (String.leb k x) eqn:Hk.
    + repeat constructor; auto.
    + constructor; auto.
      assert (Hxk : key_le x k) by (destruct (key_le_total k x); [congruence|auto]).
      destruct xs as [|y ys]; simpl.
      * repeat constructor; auto.
      * destruct (String.leb k y) eqn:Hky; constructor; auto.
        now inversion Hhd.
Qed.

(** [sorted] returns its argument in ascending order. *)
Lemma sorted_Sorted (l : list string) : Sorted key_le (sorted l).
Proof.
  induction l as [|x xs IH]; simpl; [constructor|].
  now apply insert_sorted_Sorted.
Qed.

Lemma Sorted_key_le_Forall (x : string) (l : list string) :
  Sorted key_le (x :: l) -> Forall (key_le x) l.
Proof.
  intros H. apply Sorted_StronglySorted in H.
  - now inversion H.
  - intros a b c. apply key_le_trans.
Qed.

(** Two ascending lists with the same members are the same list. *)
Lemma Sorted_perm_eq (l1 l2 : list string) :
  Sorted key_le l1 -> Sorted key_le l2 -> Permutation l1 l2 -> l1 = l2.
Proof.
  revert l2. induction l1 as [|a l1 IH]; intros l2 H1 H2 Hp.
  - now apply Permutation_nil in Hp.
  - destruct l2 as [|b l2]; [now apply Permutation_sym, Permutation_nil in Hp|].
    assert (a = b).
    { pose proof (Sorted_key_le_Forall _ _ H1) as F1.
      pose proof (Sorted_key_le_Forall _ _ H2) as F2.
      rewrite Forall_forall in F1, F2.
      assert (Ha : In a (b :: l2)) by (eapply Permutation_in; eauto; now left).
      assert (Hb : In b (a :: l1))
        by (eapply Permutation_in; [apply Permutation_sym|]; eauto; now left).
      destruct Ha as [->|Ha]; auto. destruct Hb as [->|Hb]; auto.
      apply key_le_antisym; auto. }
    subst b. f_equal. apply IH.
    + now inversion H1.
    + now inversion H2.
    + eapply Permutation_cons_inv; eauto.
Qed.

(** [sorted] does not depend on the order of its argument. *)
Lemma sorted_Permutation (l l' : list string) :
  Permutation l l' -> sorted l = sorted l'.
Proof.
  intros H. apply Sorted_perm_eq; try apply sorted_Sorted.
  rewrite <- !sorted_perm. exact H.
Qed.

Lemma dict_get_In {V : Type} (d : list (string * V)) (k : string) (v : V) :
  NoDup (dict_keys d) ->
  (dict_get String.eqb d k = Some v <-> In (k, v) d).
Proof.
  induction d as [|[k1 v1] d IH]; simpl; intros Hnd.
  - split; [discriminate|tauto].
  - inversion Hnd as [|? ? Hnotin Hnd']; subst.
    destruct (String.eqb k k1) eqn:Hk.
    + apply String.eqb_eq in Hk. subst k1. split.
      * intros [= ->]. now left.
      * intros [[= ->]|Hin]; auto.
        exfalso. apply Hnotin. apply in_map_iff. now exists (k, v).
    + apply String.eqb_neq in Hk. rewrite (IH Hnd'). split; auto.
      intros [[= -> ->]|Hin]; auto. congruence.
Qed.

Lemma dict_get_None {V : Type} (d : list (string * V)) (k : string) :
  dict_get String.eqb d k = None <-> ~ In k (dict_keys d).
Proof.
  induction d as [|[k1 v1] d IH]; simpl.
  - tauto.
  - destruct (String.eqb k k1) eqn:Hk.
    + apply String.eqb_eq in Hk. subst. split; [discriminate|tauto].
    + apply String.eqb_neq in Hk. rewrite IH. split; [intros H [E|I]|]; auto.
Qed.

(** Looking a key up does not depend on the order of the items. *)
Lemma getitem_Permutation {V : Type} (d d' : list (string * V)) (k : string) :
  NoDup (dict_keys d) -> Permutation d d' -> getitem d k = getitem d' k.
Proof.
  intros Hnd Hp. unfold getitem.
  assert (Hnd' : NoDup (dict_keys d')).
  { eapply Permutation_NoDup; [|exact Hnd]. now apply Permutation_map. }
  destruct (dict_get String.eqb d k) as [v|] eqn:Hg.
  - apply dict_get_In in Hg; auto.
    assert (Hin : In (k, v) d') by (eapply Permutation_in; eauto).
    apply (dict_get_In d' k v Hnd') in Hin. now rewrite Hin.
  - apply dict_get_None in Hg.
    assert (Hg' : dict_get String.eqb d' k = None).
    { apply dict_get_None. intros Hin. apply Hg.
      eapply Permutation_in; [|exact Hin].
      apply Permutation_sym. now apply Permutation_map. }
    now rewrite Hg'.
Qed.

Lemma Record_field_names (fs : list (string * Mono)) :
  field_names (Record fs) = map fst fs.
Proof. unfold Record. simpl. rewrite map_map. reflexivity. Qed.

Lemma map_fst_combine {A B : Type} (l : list A) (r : list B) :
  List.length l = List.length r -> map fst (combine l r) = l.
Proof.
  revert r. induction l as [|x xs IH]; intros [|y ys]; simpl; try discriminate; auto.
  intros [= H]. now rewrite IH.
Qed.

Section Discover_records.
Variable dateparse : string -> result pydatetime.
Abbreviation discover := (discover dateparse).

Lemma discover_dict_fields (d : list (string * value)) (r : Mono) :
  discover (VDict d) = Ok r ->
  exists fs, r = Record fs /\ map fst fs = sorted (dict_keys d).
Proof.
  rewrite discover_VDict. unfold discover_dict, discover_dict_body.
  destruct (mapM _ (sorted (dict_keys d))) as [fs|] eqn:Hfs; simpl; try discriminate.
  intros [= <-]. exists fs. split; auto.
  eapply mapM_fst; [|exact Hfs].
  intros k y. simpl.
  destruct (getitem d k); simpl; try discriminate.
  destruct (discover a); simpl; try discriminate.
  now intros [= <-].
Qed.

Lemma discover_dict_returns (d : list (string * value)) :
  Forall (fun kv => exists t, discover (snd kv) = Ok t) d ->
  exists r, discover (VDict d) = Ok r.
Proof.
  intros Hall. rewrite discover_VDict. unfold discover_dict, discover_dict_body.
  destruct (mapM_total
              (fun k => v <- getitem d k ;; t <- discover v ;; Ok (k, t))
              (sorted (dict_keys d))) as [fs Hfs].
  - intros k Hk.
    apply (Permutation_in _ (Permutation_sym (sorted_perm _))) in Hk.
    unfold getitem.
    destruct (dict_get String.eqb d k) as [v|] eqn:Hg.
    + assert (Hin : exists k', In (k', v) d).
      { clear Hall Hk. induction d as [|[k1 v1] d' IH]; simpl in Hg; [discriminate|].
        destruct (String.eqb k k1).
        - inversion Hg; subst. exists k1. now left.
        - destruct (IH Hg) as [k' Hk']. exists k'. now right. }
      destruct Hin as [k' Hin].
      rewrite Forall_forall in Hall. destruct (Hall _ Hin) as [t Ht].
      simpl in Ht. simpl. rewrite Ht. simpl. eauto.
    + apply dict_get_None in Hg. contradiction.
  - rewrite Hfs. simpl. eauto.
Qed.

Lemma discover_dict_Permutation (d d' : list (string * value)) :
  NoDup (dict_keys d) -> Permutation d d' ->
  discover (VDict d) = discover (VDict d').
Proof.
  intros Hnd Hp. rewrite !discover_VDict.
  unfold discover_dict, discover_dict_body.
  rewrite (sorted_Permutation (dict_keys d) (dict_keys d'))
    by (now apply Permutation_map).
  f_equal. apply mapM_ext. intros k.
  now rewrite (getitem_Permutation d d' k Hnd Hp).
Qed.

Lemma records_path_fields (n : Z) (dicts : list (list (string * value)))
    (r : Mono) :
  records_path discover n (Some dicts) = Ok (Some r) ->
  exists d0 rest fs,
    dicts = d0 :: rest /\ r = n ** Record fs /\
    map fst fs = sorted (dict_keys d0).
Proof.
  unfold records_path.
  destruct (_ =? 1); [|discriminate].
  destruct dicts as [|d0 rest]; [discriminate|].
  destruct (mapM _ (sorted (dict_keys d0))) as [columns|] eqn:Hc;
    simpl; try discriminate.
  destruct (mapM (column_type discover) columns) as [types|e] eqn:Ht; simpl.
  - intros [= <-].
    exists d0, rest, (combine (sorted (dict_keys d0)) types).
    repeat split. apply map_fst_combine.
    apply mapM_Ok_length in Hc, Ht. congruence.
  - destruct e; simpl; discriminate.
Qed.

(** C9: when the values of a dict have shapes, [discover] returns a
    record shape whose field names are the keys in ascending order, and
    the same shape for every order of the items; and a shape returned by
    the column path for dicts is [n] times a record shape whose field
    names are the keys of the first dict in ascending order. *)
Theorem discover_record_fields_sorted (d : list (string * value))
    (Hvalues : Forall (fun kv => exists t, discover (snd kv) = Ok t) d) :
  (exists fs,
     discover (VDict d) = Ok (Record fs) /\
     field_names (Record fs) = sorted (dict_keys d) /\
     Sorted key_le (field_names (Record fs)) /\
     Permutation (dict_keys d) (field_names (Record fs))) /\
  (forall d', NoDup (dict_keys d) -> Permutation d d' ->
     discover (VDict d') = discover (VDict d)) /\
  (forall n dicts r,
     records_path discover n (Some dicts) = Ok (Some r) ->
     exists d0 rest fs,
       dicts = d0 :: rest /\ r = n ** Record fs /\
       field_names (Record fs) = sorted (dict_keys d0) /\
       Sorted key_le (field_names (Record fs))).
Proof.
  split; [|split].
  - destruct (discover_dict_returns d Hvalues) as [r Hr].
    destruct (discover_dict_fields d r Hr) as [fs [-> Hfs]].
    exists fs. rewrite Record_field_names, Hfs.
    repeat split; auto using sorted_Sorted, sorted_perm.
  - intros d' Hnd Hp. symmetry. now apply discover_dict_Permutation.
  - intros n dicts r Hr.
    destruct (records_path_fields n dicts r Hr) as [d0 [rest [fs [-> [-> Hfs]]]]].
    exists d0, rest, fs. rewrite Record_field_names, Hfs.
    repeat split. apply sorted_Sorted.
Qed.
End Discover_records.

Lemma discover_record_fields_sorted_witness :
  discover iso_dateparse (VDict [("b", VInt 1); ("a", VList [VInt 1; VInt 2])])
  = discover iso_dateparse (VDict [("a", VList [VInt 1; VInt 2]); ("b", VInt 1)]) /\
  exists fs,
    discover iso_dateparse (VDict [("b", VInt 1); ("a", VList [VInt 1; VInt 2])])
    = Ok (Record fs) /\
    field_names (Record fs) = ["a"; "b"]%string.
Proof.
  destruct (discover_record_fields_sorted iso_dateparse
              [("b", VInt 1); ("a", VList [VInt 1; VInt 2])])
    as [[fs [H1 [H2 _]]] [Hperm _]].
  - repeat constructor; simpl; eexists; reflexivity.
  - split.
    + symmetry. apply Hperm.
      * repeat constructor; simpl; intuition discriminate.
      * apply perm_swap.
    + exists fs. split; [exact H1|exact H2].
Defined.

(* ================================================================== *)
(** * The generality graph and base unification on kinds *)

Lemma dict_get_Some_key {V : Type} (d : list (Mono * V)) (x : Mono) (v : V) :
  dict_get Mono_eqb d x = Some v -> In x (dict_keys d).
Proof.
  induction d as [|[k w] d IH]; simpl; [discriminate|].
  destruct (Mono_eqb x k) eqn:E.
  - apply Mono_eqb_eq in E. now left.
  - intros H. right. now apply IH.
Qed.

(** The loop of [descendents] leaves through its test, not for want of
    fuel: more fuel changes nothing. *)
Lemma descendents_fuel_enough (x : Mono) (n : nat) :
  descendents_loop (descendents_fuel edges + n) edges (set_of [x]) (get_set edges x)
  = descendents edges x.
Proof.
  unfold descendents.
  destruct (dict_get Mono_eqb edges x) as [s|] eqn:Hx.
  - apply dict_get_Some_key in Hx. simpl in Hx.
    repeat (destruct Hx as [<-|Hx]; [reflexivity|]). destruct Hx.
  - unfold get_set. rewrite Hx. reflexivity.
Qed.

(** What [descendents] computes for each kind. *)
Definition reachable_set (k : ctype) : list Mono :=
  match k with
  | k_int32 => [int32; int64; string_; real]
  | k_int64 => [int64; string_; real]
  | k_float64 => [real; string_]
  | k_bool => [bool_; string_]
  | k_complex128 => [complex128]
  | k_string => [string_]
  | k_date => [date_; string_; datetime_]
  | k_time => [time_]
  | k_datetime => [datetime_; string_]
  | k_null => [null; string_]
  end.

Lemma descendents_kind (k : ctype) :
  descendents edges (CType k) = Ok (reachable_set k).
Proof. destruct k; reflexivity. Qed.

Ltac pick_edge := (left; reflexivity) + (right; pick_edge).

Ltac promote n :=
  lazymatch n with
  | O => apply promotes_refl
  | S ?m =>
      apply promotes_refl +
      (eapply promotes_step; [|unfold edge_list; pick_edge]; promote m)
  end.

Ltac split_In H :=
  repeat match type of H with
         | _ \/ _ => destruct H as [H|H]
         | False => destruct H
         end.

(** [descendents] computes the reachable set of the specification. *)
Lemma reachable_set_promotes (k : ctype) (x : Mono) :
  In x (reachable_set k) <-> promotes (CType k) x.
Proof.
  split.
  - intros H.
    destruct k; simpl in H; split_In H; subst x; promote 3%nat.
  - intros H. remember (CType k) as s eqn:Hs.
    induction H as [x|x y z Hxy IH Hedge]; subst.
    + destruct k; simpl; auto.
    + specialize (IH eq_refl).
      unfold edge_list in Hedge. simpl in Hedge.
      split_In Hedge; inversion Hedge; subst; clear Hedge;
        destruct k; simpl in IH; split_In IH;
        try discriminate; simpl; auto 6.
Qed.

Lemma set_inter_In (a b : list Mono) (x : Mono) :
  In x (set_inter a b) <-> In x a /\ In x b.
Proof. unfold set_inter. rewrite filter_In, mem_eq. tauto. Qed.

Lemma fold_left_inter_In (sets : list (list Mono)) (s : list Mono) (x : Mono) :
  In x (fold_left set_inter sets s) <-> In x s /\ Forall (In x) sets.
Proof.
  revert s. induction sets as [|t sets IH]; intros s; simpl.
  - split; [intros H; split; auto|tauto].
  - rewrite IH, set_inter_In. split.
    + intros [[Hs Ht] Hall]. auto.
    + intros [Hs Hall]. inversion Hall; subst. auto.
Qed.

Lemma fold_min_Raise (key : Mono -> result Z) (xs : list Mono) (e : exn) :
  fold_left
    (fun acc y => b <- acc ;; ky <- key y ;; Ok (if ky <? snd b then (y, ky) else b))
    xs (Raise e) = Raise e.
Proof. induction xs; simpl; auto. Qed.

Lemma fold_min_spec (key : Mono -> result Z) (xs : list Mono) (m : Mono) (km : Z) :
  key m = Ok km ->
  (forall y, In y xs -> exists ky, key y = Ok ky) ->
  exists c kc,
    fold_left
      (fun acc y => b <- acc ;; ky <- key y ;; Ok (if ky <? snd b then (y, ky) else b))
      xs (Ok (m, km)) = Ok (c, kc) /\
    key c = Ok kc /\ In c (m :: xs) /\ kc <= km /\
    (forall y ky, In y xs -> key y = Ok ky -> kc <= ky).
Proof.
  revert m km. induction xs as [|y ys IH]; intros m km Hm Hall; cbn [fold_left].
  - exists m, km. repeat split; auto; try lia; try (now left).
    intros y ky Hy. destruct Hy.
  - destruct (Hall y) as [ky Hy]; [now left|]. rewrite Hy. cbn [bind snd].
    destruct (ky <? km) eqn:Hlt.
    + apply Z.ltb_lt in Hlt.
      destruct (IH y ky Hy) as [c [kc [Hf [Hc [Hin [Hle Hmin]]]]]].
      { intros z Hz. apply Hall. now right. }
      exists c, kc. repeat split; auto; try lia.
      * right. exact Hin.
      * intros z kz [<-|Hz] Hkz; [|eauto]. rewrite Hy in Hkz. inversion Hkz; subst. lia.
    + apply Z.ltb_ge in Hlt.
      destruct (IH m km Hm) as [c [kc [Hf [Hc [Hin [Hle Hmin]]]]]].
      { intros z Hz. apply Hall. now right. }
      exists c, kc. repeat split; auto.
      * destruct Hin as [Hin|Hin]; [now left|right; now right].
      * intros z kz [<-|Hz] Hkz; [|eauto]. rewrite Hy in Hkz. inversion Hkz; subst. lia.
Qed.

(** [min(s, key=key)] returns a member with the least key. *)
Lemma min_by_key_spec (key : Mono -> result Z) (s : list Mono) :
  s <> [] ->
  (forall y, In y s -> exists ky, key y = Ok ky) ->
  exists c kc,
    min_by_key key s = Ok c /\ In c s /\ key c = Ok kc /\
    (forall y ky, In y s -> key y = Ok ky -> kc <= ky).
Proof.
  intros Hne Hall. destruct s as [|x xs]; [congruence|].
  unfold min_by_key.
  destruct (Hall x) as [kx Hx]; [now left|]. rewrite Hx. simpl.
  destruct (fold_min_spec key xs x kx Hx) as [c [kc [Hf [Hc [Hin [Hle Hmin]]]]]].
  { intros y Hy. apply Hall. now right. }
  rewrite Hf. simpl. exists c, kc. repeat split; auto.
  intros y ky [<-|Hy] Hky; [|eauto]. rewrite Hx in Hky. inversion Hky; subst. exact Hle.
Qed.

(** A kind whose key is missing makes [min] raise. *)
Lemma min_by_key_single_missing (key : Mono -> result Z) (x : Mono) (e : exn) :
  key x = Raise e -> min_by_key key [x] = Raise e.
Proof. intros H. unfold min_by_key. now rewrite H. Qed.

(** Two kinds reachable from one kind are comparable. *)
Lemma reachable_set_chain (k : ctype) (x y : Mono) :
  In x (reachable_set k) -> In y (reachable_set k) ->
  promotes x y \/ promotes y x.
Proof.
  intros Hx Hy.
  destruct k; simpl in Hx, Hy; split_In Hx; split_In Hy; subst x y;
    first [left; promote 3%nat | right; promote 3%nat].
Qed.

Lemma reachable_set_in_graph (k : ctype) (x : Mono) :
  in_graph k = true -> In x (reachable_set k) ->
  exists k', x = CType k' /\ in_graph k' = true.
Proof.
  intros Hk Hx.
  destruct k; try discriminate; simpl in Hx; split_In Hx; subst x;
    eexists; split; reflexivity.
Qed.

Lemma reachable_set_string (k : ctype) :
  in_graph k = true -> In string_ (reachable_set k).
Proof. destruct k; try discriminate; simpl; auto 6. Qed.

Lemma mapM_descendents_kinds (ks : list ctype) :
  mapM (descendents edges) (map CType ks) = Ok (map reachable_set ks).
Proof.
  induction ks as [|k ks IH]; [reflexivity|].
  cbn [map mapM]. rewrite descendents_kind, IH. reflexivity.
Qed.

Lemma list_index_functional (order : list Mono) (x : Mono) (i j : Z) :
  list_index order x = Ok i -> list_index order x = Ok j -> i = j.
Proof. congruence. Qed.

Section Order.
Variable order : list Mono.
Hypothesis order_topological : topological order.

Lemma graph_kind_indexed (k : ctype) :
  in_graph k = true -> exists i, list_index order (CType k) = Ok i.
Proof.
  intros Hk.
  assert (E : forall a b, In (a, b) edge_list ->
              (exists i, list_index order a = Ok i) /\
              (exists i, list_index order b = Ok i)).
  { intros a b H. destruct (order_topological a b H) as [i [j [Hi [Hj _]]]]. eauto. }
  destruct k; try discriminate.
  - apply (E int64 int32). unfold edge_list. simpl. auto 10.
  - apply (E int64 int32). unfold edge_list. simpl. auto 10.
  - apply (E real int64). unfold edge_list. simpl. auto 10.
  - apply (E string_ bool_). unfold edge_list. simpl. auto 10.
  - apply (E string_ bool_). unfold edge_list. simpl. auto 10.
  - apply (E string_ date_). unfold edge_list. simpl. auto 10.
  - apply (E string_ datetime_). unfold edge_list. simpl. auto 10.
  - apply (E string_ null). unfold edge_list. simpl. auto 12.
Qed.

(** Promotion goes upwards in the order. *)
Lemma promotes_index (x z : Mono) :
  promotes x z ->
  x = z \/ exists i j, list_index order x = Ok i /\ list_index order z = Ok j /\ i < j.
Proof.
  induction 1 as [x|x y z Hxy IH Hedge]; [now left|right].
  destruct (order_topological z y Hedge) as [j [k [Hj [Hk Hlt]]]].
  destruct IH as [->|[i [j' [Hi [Hj' Hlt']]]]].
  - exists j, k. auto.
  - exists i, k. repeat split; auto.
    rewrite Hj in Hj'. inversion Hj'; subst. lia.
Qed.

(** [lowest_common_dshape] on kinds of the graph: the result is a common
    promotion target from which every common promotion target is reached,
    whatever topological order breaks the ties. *)
Lemma lowest_common_dshape_in_kinds (ks : list ctype) :
  ks <> [] ->
  Forall (fun k => in_graph k = true) ks ->
  exists c,
    lowest_common_dshape_in order (map CType ks) = Ok (Some (CType c)) /\
    common_target (map CType ks) (CType c) /\
    (forall c', common_target (map CType ks) c' -> promotes (CType c) c').
Proof.
  intros Hne Hall. unfold lowest_common_dshape_in.
  rewrite mapM_descendents_kinds.
  destruct ks as [|k0 ks']; [congruence|]. cbn [map bind set_intersection_star].
  set (common := fold_left set_inter (map reachable_set ks') (reachable_set k0)).
  assert (Hcommon : forall x, In x common <-> common_target (map CType (k0 :: ks')) x).
  { intros x. unfold common, common_target. rewrite fold_left_inter_In.
    cbn [map]. rewrite Forall_cons_iff, reachable_set_promotes.
    rewrite !Forall_map.
    split; intros [H0 H]; split; auto;
      eapply Forall_impl; [|exact H| |exact H]; intros k; apply reachable_set_promotes. }
  inversion Hall as [|? ? Hk0 Hks']; subst.
  assert (Hstr : In string_ common).
  { unfold common. apply fold_left_inter_In. split.
    - now apply reachable_set_string.
    - apply Forall_map. eapply Forall_impl; [|exact Hks'].
      intros k. apply reachable_set_string. }
  assert (Hsub : forall x, In x common -> In x (reachable_set k0)).
  { intros x Hx. unfold common in Hx. now apply fold_left_inter_In in Hx. }
  destruct (min_by_key_spec (list_index order) common) as [c [kc [Hmin [Hin [Hkc Hle]]]]].
  { intros E. rewrite E in Hstr. destruct Hstr. }
  { intros y Hy. apply Hsub in Hy.
    destruct (reachable_set_in_graph k0 y Hk0 Hy) as [k' [-> Hk']].
    now apply graph_kind_indexed. }
  destruct common as [|x0 rest] eqn:Ecommon; [destruct Hstr|].
  rewrite Hmin. cbn [bind].
  destruct (reachable_set_in_graph k0 c Hk0 (Hsub c Hin)) as [kc' [-> Hkc']].
  exists kc'. split; [reflexivity|]. split; [now apply Hcommon|].
  intros c' Hc'. apply Hcommon in Hc'.
  destruct (reachable_set_chain k0 (CType kc') c' (Hsub _ Hin) (Hsub _ Hc')) as [H|H]; auto.
  destruct (promotes_index _ _ H) as [->|[i [j [Hi [Hj Hlt]]]]]; [apply promotes_refl|].
  exfalso. rewrite Hkc in Hj. inversion Hj; subst.
  pose proof (Hle c' i Hc' Hi). lia.
Qed.

(** A kind that the order does not list makes [lowest_common_dshape]
    raise, though the kind reaches itself. *)
Lemma lowest_common_dshape_in_unlisted (k : ctype) :
  in_graph k = false ->
  list_index order (CType k) = Raise ValueError ->
  lowest_common_dshape_in order [CType k] = Raise ValueError /\
  common_target [CType k] (CType k).
Proof.
  intros Hk Hidx. split.
  - unfold lowest_common_dshape_in. cbn [mapM]. rewrite descendents_kind.
    destruct k; try discriminate;
      cbn [bind reachable_set set_intersection_star fold_left];
      erewrite min_by_key_single_missing by exact Hidx; reflexivity.
  - repeat constructor.
Qed.
End Order.

(** The order that [_toposort] returns is topological. *)
Lemma toposorted_topological : topological toposorted.
Proof.
  intros a b H. unfold edge_list in H. simpl in H.
  split_In H; inversion H; subst;
    eexists; eexists; (split; [reflexivity|split; reflexivity]).
Qed.

Lemma isnull_CType (k : ctype) : isnull (CType k) = ctype_eqb k k_null.
Proof. unfold isnull, null. simpl. apply orb_false_r. Qed.

(** Base unification on kinds of the graph: with at least one member that
    is not null, the result is [N * c], or [N * Option(c)] when a null
    member is present, where [c] is the most specific common promotion
    target of the members that are not null. *)
Lemma unite_base_kinds (ks : list ctype) :
  let nonnull := filter (fun k => negb (ctype_eqb k k_null)) ks in
  nonnull <> [] ->
  Forall (fun k => in_graph k = true) nonnull ->
  exists c,
    unite_base (map CType ks)
    = Ok (Some (len ks **
                (if existsb (fun k => ctype_eqb k k_null) ks
                 then Option (CType c) else CType c))) /\
    common_target (map CType nonnull) (CType c) /\
    (forall c', common_target (map CType nonnull) c' -> promotes (CType c) c').
Proof.
  intros nonnull Hne Hall.
  destruct (lowest_common_dshape_in_kinds toposorted toposorted_topological
              nonnull Hne Hall) as [c [Hc [Hcommon Hleast]]].
  exists c. split; [|split; assumption].
  rewrite unite_base_eq. cbv zeta.
  assert (Hun : map unpack (map CType ks) = map CType ks).
  { rewrite map_map. reflexivity. }
  rewrite Hun.
  assert (Hfil : filter (fun x => negb (isnull x)) (map CType ks) = map CType nonnull).
  { unfold nonnull. clear. induction ks as [|k ks IH]; [reflexivity|].
    cbn [map filter]. rewrite isnull_CType.
    destruct (ctype_eqb k k_null); cbn [negb map]; now rewrite IH. }
  rewrite Hfil. unfold lowest_common_dshape. rewrite Hc. cbn [bind].
  assert (Hex : existsb isnull (map CType ks)
                = existsb (fun k => ctype_eqb k k_null) ks).
  { clear. induction ks as [|k ks IH]; [reflexivity|].
    cbn [map existsb]. now rewrite isnull_CType, IH. }
  rewrite Hex, len_map. reflexivity.
Qed.

Example unite_base_kinds_sample :
  exists c,
    unite_base (map CType [k_int32; k_null; k_date])
    = Ok (Some (3 ** Option (CType c))).
Proof.
  destruct (unite_base_kinds [k_int32; k_null; k_date]) as [c [H _]].
  - discriminate.
  - repeat constructor.
  - exists c. exact H.
Qed.
